(** * Apartment finder: extraction, filtering and reconciliation

    A shallow embedding of [src/scraper.py] and the properties of its
    field parsers, listing extractor, criteria filter, deduplicator and
    reconciliation store, of a run of [main] and of the e-mail it
    composes.

    Conventions of the embedding.
    - A Python [str] is a [string] holding the UTF-8 bytes of the text.
      [str.lower], [\d], [\s] and [str.strip] are modelled on the ASCII
      range; bytes above 127 are left alone by [lower] and are neither
      digits nor white space.  Slices count bytes.
    - Python [int] values are [Z]; a [float] is the rational it denotes
      ([Q]); [float(s)] yields the exact value of the decimal numeral
      (binary64 rounding and overflow to infinity are not modelled), and
      [int(s)] has no limit on the number of digits.
    - An exception is a value of [exn]; code that may raise returns a
      [result].
    - A listing dictionary is a record; a key that is missing and a key
      bound to [None] are both [None], which is what [dict.get] returns.
    - The SQLite table [listings] is a finite map from [id] to a row; its
      integer columns hold any [Z] (the 64-bit range of SQLite is not
      modelled).
    - What the browser does (finding the cards of a page, their links and
      their address and price elements) is input to the model.
    - The e-mail is followed up to the message handed to the mail server:
      its counts and the listings it shows, not the HTML around them nor
      the delivery. *)

From Stdlib Require Import ZArith QArith Ascii String List Lia Sorted.
From stdpp Require Import gmap strings list.

Local Open Scope Z_scope.

(** ** Exceptions *)

Inductive exn : Type := ValueError | AttributeError | TypeError.

Inductive result (A : Type) : Type :=
| Ok (a : A)
| Raise (e : exn).
Arguments Ok {A} a.
Arguments Raise {A} e.

Global Instance result_ret : MRet result := λ A a, Ok a.

Global Instance result_bind : MBind result := λ A B f m,
  match m with
  | Ok a => f a
  | Raise e => Raise e
  end.

(** ** Characters and strings *)

Module Str.

Definition code (c : ascii) : N := N_of_ascii c.

(** [\d] on the ASCII range. *)
Definition is_digit (c : ascii) : bool :=
  (48 <=? code c)%N && (code c <=? 57)%N.

(** [\s] and [str.isspace] on the ASCII range: tab, line feed, vertical
    tab, form feed, carriage return, the four separators 28 to 31, and
    the space. *)
Definition is_space (c : ascii) : bool :=
  ((9 <=? code c)%N && (code c <=? 13)%N)
  || ((28 <=? code c)%N && (code c <=? 32)%N).

Definition is_upper (c : ascii) : bool :=
  (65 <=? code c)%N && (code c <=? 90)%N.

Definition lower_char (c : ascii) : ascii :=
  if is_upper c then ascii_of_N (code c + 32) else c.

(** [s.lower()] *)
Fixpoint lower (s : string) : string :=
  match s with
  | EmptyString => EmptyString
  | String c s' => String (lower_char c) (lower s')
  end.

Fixpoint starts_with (p s : string) : bool :=
  match p, s with
  | EmptyString, _ => true
  | String a p', String b s' => Ascii.eqb a b && starts_with p' s'
  | String _ _, EmptyString => false
  end.

(** [needle in hay] *)
Fixpoint contains (needle hay : string) : bool :=
  starts_with needle hay ||
  match hay with
  | EmptyString => false
  | String _ hay' => contains needle hay'
  end.

(** [s.replace(c, '')] for a one-character [c]. *)
Fixpoint remove_char (c : ascii) (s : string) : string :=
  match s with
  | EmptyString => EmptyString
  | String a s' =>
      if Ascii.eqb a c then remove_char c s' else String a (remove_char c s')
  end.

(** [s[:n]] *)
Fixpoint take (n : nat) (s : string) : string :=
  match n, s with
  | S n', String c s' => String c (take n' s')
  | _, _ => EmptyString
  end.

Fixpoint drop (n : nat) (s : string) : string :=
  match n, s with
  | S n', String _ s' => drop n' s'
  | _, _ => s
  end.

Fixpoint all (p : ascii → bool) (s : string) : bool :=
  match s with
  | EmptyString => true
  | String c s' => p c && all p s'
  end.

Fixpoint lstrip (s : string) : string :=
  match s with
  | String c s' => if is_space c then lstrip s' else s
  | EmptyString => EmptyString
  end.

(** drops the white space that ends [s] *)
Fixpoint rstrip (s : string) : string :=
  match s with
  | EmptyString => EmptyString
  | String c s' =>
      match rstrip s' with
      | EmptyString => if is_space c then EmptyString else String c EmptyString
      | t => String c t
      end
  end.

(** [s.strip()] *)
Definition strip (s : string) : string := rstrip (lstrip s).

Definition digit_val (c : ascii) : Z := Z.of_N (code c) - 48.

(** value of a run of decimal digits, most significant first *)
Fixpoint digits_val (acc : Z) (s : string) : Z :=
  match s with
  | EmptyString => acc
  | String c s' => digits_val (10 * acc + digit_val c) s'
  end.

Definition is_empty (s : string) : bool :=
  match s with EmptyString => true | _ => false end.

End Str.

(** [int(s)] on the strings the parsers pass to it, which hold decimal
    digits only: the empty string, and any other character, is a
    [ValueError]. *)
Definition py_int (s : string) : result Z :=
  if Str.is_empty s then Raise ValueError
  else if Str.all Str.is_digit s then Ok (Str.digits_val 0 s)
  else Raise ValueError.

(** [float(s)] on the strings [parse_beds_baths] passes to it, which hold
    decimal digits and dots only.  Python accepts such a string when it has
    at least one digit and at most one dot.  The loop keeps the digits read
    so far as an integer and counts those after the dot. *)
Fixpoint float_scan (s : string) (mant : Z) (ndig : nat) (dot : option nat)
  : option (Z * nat * option nat) :=
  match s with
  | EmptyString => Some (mant, ndig, dot)
  | String c s' =>
      if Str.is_digit c then
        float_scan s' (10 * mant + Str.digit_val c) (S ndig) (option_map S dot)
      else if Ascii.eqb c "."%char then
        match dot with
        | None => float_scan s' mant ndig (Some O)
        | Some _ => None
        end
      else None
  end.

Definition py_float (s : string) : result Q :=
  match float_scan s 0 O None with
  | Some (mant, S _, dot) =>
      let frac := match dot with Some k => k | None => O end in
      Ok (Qred (Qmake mant (Z.to_pos (10 ^ Z.of_nat frac))))
  | _ => Raise ValueError
  end.

(** ** Regular expressions

    The fragment of Python's [re] that the source uses, with the search
    order of a backtracking matcher: quantifiers are greedy, alternatives
    are tried left to right, and [re.search] takes the first start position
    at which the pattern matches.  Repetition is over a character class,
    which is all the source needs.  There is one capture group. *)

Inductive regex : Type :=
| Eps                          (* the empty pattern *)
| Chr (c : ascii)              (* a literal character *)
| Star (p : ascii → bool)      (* [...]* *)
| Plus (p : ascii → bool)      (* [...]+ *)
| Opt (r : regex)              (* r? *)
| Cat (r1 r2 : regex)          (* r1 r2 *)
| Alt (r1 r2 : regex)          (* r1 | r2 *)
| Group (r : regex)            (* ( r ) *)
| Eos.                         (* $ *)

(** a literal word *)
Fixpoint Lit (s : string) : regex :=
  match s with
  | EmptyString => Eps
  | String c s' => Cat (Chr c) (Lit s')
  end.

(** The part of [s] read on the way to its suffix [s']. *)
Definition consumed (s s' : string) : string :=
  Str.take (String.length s - String.length s') s.

(** [$] matches at the end of the string and just before a line feed that
    ends the string. *)
Definition at_end (s : string) : bool :=
  match s with
  | EmptyString => true
  | String c EmptyString => Ascii.eqb c "010"%char
  | _ => false
  end.

Definition or_else {R : Type} (a b : option R) : option R :=
  match a with
  | Some x => Some x
  | None => b
  end.

(** Greedy repetition of a class: the longest run first, then shorter
    ones, until the continuation [k] accepts. *)
Fixpoint star_k {R : Type} (p : ascii → bool) (s : string)
    (k : string → option R) : option R :=
  match s with
  | String c s' => if p c then or_else (star_k p s' k) (k s) else k s
  | EmptyString => k s
  end.

(** [rmatch r s g k] matches [r] at the start of [s]; [g] is the text of the
    capture group so far and [k] receives the rest of the string. *)
Fixpoint rmatch {R : Type} (r : regex) (s : string) (g : option string)
    (k : string → option string → option R) : option R :=
  match r with
  | Eps => k s g
  | Chr c =>
      match s with
      | String a s' => if Ascii.eqb a c then k s' g else None
      | EmptyString => None
      end
  | Star p => star_k p s (λ s', k s' g)
  | Plus p =>
      match s with
      | String a s' => if p a then star_k p s' (λ s'', k s'' g) else None
      | EmptyString => None
      end
  | Opt r1 => or_else (rmatch r1 s g k) (k s g)
  | Cat r1 r2 => rmatch r1 s g (λ s' g', rmatch r2 s' g' k)
  | Alt r1 r2 => or_else (rmatch r1 s g k) (rmatch r2 s g k)
  | Group r1 => rmatch r1 s g (λ s' _, k s' (Some (consumed s s')))
  | Eos => if at_end s then k s g else None
  end.

(** A match object: [m.group()] and [m.group(1)]. *)
Record rmatch_obj : Type := MatchObj {
  group0 : string;
  group1 : option string
}.

Definition match_at (r : regex) (s : string) : option rmatch_obj :=
  rmatch r s None (λ s' g, Some (MatchObj (consumed s s') g)).

(** [re.search(r, s)] *)
Fixpoint search (r : regex) (s : string) : option rmatch_obj :=
  or_else (match_at r s)
    match s with
    | String _ s' => search r s'
    | EmptyString => None
    end.

(** [r] has no capture group. *)
Fixpoint groupless (r : regex) : bool :=
  match r with
  | Group _ => false
  | Opt r1 => groupless r1
  | Cat r1 r2 | Alt r1 r2 => groupless r1 && groupless r2
  | _ => true
  end.

(** The patterns of the source. *)

Definition digit_or_comma (c : ascii) : bool :=
  Str.is_digit c || Ascii.eqb c ","%char.

Definition digit_or_dot (c : ascii) : bool :=
  Str.is_digit c || Ascii.eqb c "."%char.

(** [[\$]?([\d,]+)] *)
Definition price_rx : regex :=
  Cat (Opt (Chr "$")) (Group (Plus digit_or_comma)).

(** [(\d+)\s*bed] *)
Definition bed_rx : regex :=
  Cat (Group (Plus Str.is_digit)) (Cat (Star Str.is_space) (Lit "bed")).

(** [([\d.]+)\s*bath] *)
Definition bath_rx : regex :=
  Cat (Group (Plus digit_or_dot)) (Cat (Star Str.is_space) (Lit "bath")).

(** [/(\d+)(?:\?|$)] *)
Definition id_rx : regex :=
  Cat (Chr "/") (Cat (Group (Plus Str.is_digit)) (Alt (Chr "?") Eos)).

(** [\$[\d,]+] *)
Definition dollar_rx : regex :=
  Cat (Chr "$") (Plus digit_or_comma).

(** [\$([\d,]+)\s*net\s*effective] *)
Definition net_rx : regex :=
  Cat (Chr "$") (Cat (Group (Plus digit_or_comma))
    (Cat (Star Str.is_space) (Cat (Lit "net")
      (Cat (Star Str.is_space) (Lit "effective"))))).

(** [([\d,]+)\s*(?:ftÂ²|sq\.?\s*ft|square feet)]; the source file spells
    the unit of the first alternative with these two characters. *)
Definition sqft_rx : regex :=
  Cat (Group (Plus digit_or_comma)) (Cat (Star Str.is_space)
    (Alt (Lit "ftÂ²")
      (Alt (Cat (Lit "sq") (Cat (Opt (Chr ".")) (Cat (Star Str.is_space) (Lit "ft"))))
           (Lit "square feet")))).

(** ** MD5

    [hashlib.md5(data).hexdigest()] as RFC 1321 defines it, on 32-bit words
    held in [Z]. *)

Module MD5.

Definition w32 (x : Z) : Z := x mod 2 ^ 32.

Definition rotl (x n : Z) : Z :=
  w32 (Z.lor (Z.shiftl x n) (Z.shiftr x (32 - n))).

Definition not32 (x : Z) : Z := Z.lxor x 0xffffffff.

Definition shifts : list Z :=
  [7; 12; 17; 22; 7; 12; 17; 22; 7; 12; 17; 22; 7; 12; 17; 22;
   5; 9; 14; 20; 5; 9; 14; 20; 5; 9; 14; 20; 5; 9; 14; 20;
   4; 11; 16; 23; 4; 11; 16; 23; 4; 11; 16; 23; 4; 11; 16; 23;
   6; 10; 15; 21; 6; 10; 15; 21; 6; 10; 15; 21; 6; 10; 15; 21].

Definition sines : list Z :=
  [0xd76aa478; 0xe8c7b756; 0x242070db; 0xc1bdceee;
   0xf57c0faf; 0x4787c62a; 0xa8304613; 0xfd469501;
   0x698098d8; 0x8b44f7af; 0xffff5bb1; 0x895cd7be;
   0x6b901122; 0xfd987193; 0xa679438e; 0x49b40821;
   0xf61e2562; 0xc040b340; 0x265e5a51; 0xe9b6c7aa;
   0xd62f105d; 0x02441453; 0xd8a1e681; 0xe7d3fbc8;
   0x21e1cde6; 0xc33707d6; 0xf4d50d87; 0x455a14ed;
   0xa9e3e905; 0xfcefa3f8; 0x676f02d9; 0x8d2a4c8a;
   0xfffa3942; 0x8771f681; 0x6d9d6122; 0xfde5380c;
   0xa4beea44; 0x4bdecfa9; 0xf6bb4b60; 0xbebfbc70;
   0x289b7ec6; 0xeaa127fa; 0xd4ef3085; 0x04881d05;
   0xd9d4d039; 0xe6db99e5; 0x1fa27cf8; 0xc4ac5665;
   0xf4292244; 0x432aff97; 0xab9423a7; 0xfc93a039;
   0x655b59c3; 0x8f0ccc92; 0xffeff47d; 0x85845dd1;
   0x6fa87e4f; 0xfe2ce6e0; 0xa3014314; 0x4e0811a1;
   0xf7537e82; 0xbd3af235; 0x2ad7d2bb; 0xeb86d391].

Fixpoint bytes_of (s : string) : list Z :=
  match s with
  | EmptyString => []
  | String c s' => Z.of_N (N_of_ascii c) :: bytes_of s'
  end.

(** the [n] low bytes of [x], least significant first *)
Fixpoint le_bytes (n : nat) (x : Z) : list Z :=
  match n with
  | O => []
  | S n' => x mod 256 :: le_bytes n' (x / 256)
  end.

Definition pad (msg : list Z) : list Z :=
  let len := Z.of_nat (length msg) in
  msg ++ [0x80] ++ replicate (Z.to_nat ((55 - len) mod 64)) 0
      ++ le_bytes 8 ((8 * len) mod 2 ^ 64).

Definition le_word (bs : list Z) : Z :=
  foldr (λ b acc, b + 256 * acc) 0 bs.

(** [n] little-endian words read from [bs] *)
Fixpoint words (n : nat) (bs : list Z) : list Z :=
  match n with
  | O => []
  | S n' => le_word (take 4 bs) :: words n' (drop 4 bs)
  end.

Definition state : Type := Z * Z * Z * Z.

Definition nthZ (l : list Z) (i : Z) : Z := nth (Z.to_nat i) l 0.

Definition step (M : list Z) (st : state) (i : Z) : state :=
  let '(a, b, c, d) := st in
  let '(f, g) :=
    if i <? 16 then (Z.lor (Z.land b c) (Z.land (not32 b) d), i)
    else if i <? 32 then
      (Z.lor (Z.land d b) (Z.land (not32 d) c), (5 * i + 1) mod 16)
    else if i <? 48 then (Z.lxor b (Z.lxor c d), (3 * i + 5) mod 16)
    else (Z.lxor c (Z.lor b (not32 d)), (7 * i) mod 16) in
  let f' := w32 (f + a + nthZ sines i + nthZ M g) in
  (d, w32 (b + rotl f' (nthZ shifts i)), b, c).

Definition block (st : state) (M : list Z) : state :=
  let '(a0, b0, c0, d0) := st in
  let '(a, b, c, d) := foldl (step M) st (seqZ 0 64) in
  (w32 (a0 + a), w32 (b0 + b), w32 (c0 + c), w32 (d0 + d)).

Fixpoint blocks (n : nat) (bs : list Z) (st : state) : state :=
  match n with
  | O => st
  | S n' => blocks n' (drop 64 bs) (block st (words 16 (take 64 bs)))
  end.

Definition init : state :=
  (0x67452301, 0xefcdab89, 0x98badcfe, 0x10325476).

Definition digest (s : string) : list Z :=
  let bs := pad (bytes_of s) in
  let '(a, b, c, d) := blocks (length bs / 64) bs init in
  le_bytes 4 a ++ le_bytes 4 b ++ le_bytes 4 c ++ le_bytes 4 d.

Definition hex_char (v : Z) : ascii :=
  if v <? 10 then ascii_of_N (Z.to_N (48 + v)) else ascii_of_N (Z.to_N (87 + v)).

Fixpoint hex (bs : list Z) : string :=
  match bs with
  | [] => EmptyString
  | b :: bs' => String (hex_char (b / 16)) (String (hex_char (b mod 16)) (hex bs'))
  end.

Definition hexdigest (s : string) : string := hex (digest s).

End MD5.

(** ** Field parsers *)

(** [m.group(1)] used as a string: a group that took no part in the match
    is [None], and calling a string method on it raises. *)
Definition group1_str (m : rmatch_obj) : result string :=
  match group1 m with
  | Some g => Ok g
  | None => Raise AttributeError
  end.

(** [parse_price(price_str)]; the argument may be [None]. *)
Definition parse_price (price_str : option string) : result (option Z) :=
  match price_str with
  | None => Ok None
  | Some s =>
      if Str.is_empty s then Ok None
      else
        match search price_rx (Str.remove_char "," s) with
        | Some m =>
            g ← group1_str m;
            n ← py_int (Str.remove_char "," g);
            Ok (Some n)
        | None => Ok None
        end
  end.

(** [parse_beds_baths(text)] *)
Definition parse_beds_baths (text : string) : result (option Z * option Q) :=
  beds ← match search bed_rx (Str.lower text) with
         | Some m =>
             g ← match group1 m with Some g => Ok g | None => Raise TypeError end;
             n ← py_int g;
             Ok (Some n)
         | None =>
             if Str.contains "studio" (Str.lower text) then Ok (Some 0)
             else Ok None
         end;
  baths ← match search bath_rx (Str.lower text) with
          | Some m =>
              g ← match group1 m with Some g => Ok g | None => Raise TypeError end;
              x ← py_float g;
              Ok (Some x)
          | None => Ok None
          end;
  Ok (beds, baths).

Definition laundry_keywords : list string :=
  ["washer"; "dryer"; "w/d"; "laundry in unit"; "in-unit laundry";
   "washing machine"; "laundry in-unit"].

(** [check_has_laundry(text)] *)
Definition check_has_laundry (text : string) : bool :=
  let text_lower := Str.lower text in
  existsb (λ kw, Str.contains kw text_lower) laundry_keywords.

(** [generate_listing_id(url)]; an f-string prints a missing group as
    [None]. *)
Definition generate_listing_id (url : string) : string :=
  match search id_rx url with
  | Some m =>
      "se_" +:+ match group1 m with Some g => g | None => "None" end
  | None => "se_" +:+ Str.take 12 (MD5.hexdigest url)
  end.

(** ** Listings *)

Module Listing.
Record t : Type := Make {
  url : string;
  id : string;
  address : option string;
  price : option Z;
  beds : option Z;
  baths : option Q;
  net_price : option Z;
  is_no_fee : bool;
  has_laundry : bool;
  sqft : option Z;
  neighborhood : string;
  raw_text : string
}.
End Listing.

Abbreviation listing := Listing.t.

(** ** Listing extractor

    What the browser hands over for one listing card: its visible text and
    inner HTML, the [href] the link look-ups end with ([None] when they find
    no link, or the link has no [href]), and the text of the first address
    element and of the first price element the selector lists find. *)
Record element : Type := Element {
  elem_text : string;
  elem_html : string;
  elem_href : option string;
  elem_address : option string;
  elem_price : option string
}.

(** [not x] for an optional integer: it holds of [None] and of [0]. *)
Definition falsy (x : option Z) : bool :=
  match x with
  | Some n => n =? 0
  | None => true
  end.

(** [x or y] on optional integers *)
Definition py_or (x y : option Z) : option Z :=
  if falsy x then y else x.

(** The price of a card: the first price element, then the first dollar
    amount of the visible text when that gave nothing. *)
Definition scrape_price (e : element) : result (option Z) :=
  p ← match elem_price e with
      | Some t => parse_price (Some t)
      | None => Ok None
      end;
  if falsy p then
    match search dollar_rx (elem_text e) with
    | Some m => parse_price (Some (group0 m))
    | None => Ok p
    end
  else Ok p.

(** The net effective rent, with the listed price as the fall-back. *)
Definition scrape_net_price (e : element) (price : option Z)
  : result (option Z) :=
  match search net_rx (Str.lower (elem_text e)) with
  | Some m =>
      match group1 m with
      | Some g => parse_price (Some g)
      | None => parse_price None
      end
  | None => Ok price
  end.

Definition scrape_sqft (e : element) : result (option Z) :=
  match search sqft_rx (Str.lower (elem_text e)) with
  | Some m =>
      g ← group1_str m;
      n ← py_int (Str.remove_char "," g);
      Ok (Some n)
  | None => Ok None
  end.

Definition scrape_neighborhood (url : string) : string :=
  if Str.contains "crown-heights" (Str.lower url) then "Crown Heights"
  else if Str.contains "prospect-heights" (Str.lower url) then "Prospect Heights"
  else "Brooklyn".

(** The body of the loop over the cards in [scrape_listings].
    [Ok None]: the card has no URL and is skipped; [Raise e]: the card's
    handler catches [e], prints it and goes on to the next card. *)
Definition scrape_element (e : element) : result (option listing) :=
  match elem_href e with
  | None => Ok None
  | Some url =>
      if Str.is_empty url then Ok None
      else
        let id := generate_listing_id url in
        let address := Str.strip <$> elem_address e in
        price ← scrape_price e;
        '(beds, baths) ← parse_beds_baths (elem_text e);
        net_price ← scrape_net_price e price;
        let is_no_fee := Str.contains "no fee" (Str.lower (elem_text e)) in
        let has_laundry :=
          check_has_laundry (elem_text e) || check_has_laundry (elem_html e) in
        sqft ← scrape_sqft e;
        Ok (Some {|
          Listing.url := url;
          Listing.id := id;
          Listing.address := address;
          Listing.price := price;
          Listing.beds := beds;
          Listing.baths := baths;
          Listing.net_price := net_price;
          Listing.is_no_fee := is_no_fee;
          Listing.has_laundry := has_laundry;
          Listing.sqft := sqft;
          Listing.neighborhood := scrape_neighborhood url;
          Listing.raw_text := Str.take 500 (elem_text e)
        |})
  end.

(** The listings [scrape_listings] returns for the cards of one page. *)
Fixpoint scrape_elements (es : list element) (listings : list listing)
  : list listing :=
  match es with
  | [] => listings
  | e :: es' =>
      match scrape_element e with
      | Ok (Some l) => scrape_elements es' (listings ++ [l])
      | Ok None | Raise _ => scrape_elements es' listings
      end
  end.

(** ** Criteria filter *)

Record config : Type := Config {
  min_beds : Z;
  max_beds : Z;
  min_baths : Z;
  max_price : Z
}.

(** [SEARCH_CONFIG] *)
Definition SEARCH_CONFIG : config :=
  {| min_beds := 2; max_beds := 4; min_baths := 1; max_price := 4500 |}.

(** [x < n] for a float [x] and an integer [n]; Python compares the two
    exactly. *)
Definition float_lt_int (x : Q) (n : Z) : bool :=
  negb (Qle_bool (inject_Z n) x).

(** One turn of the loop in [filter_listings]: [false] where the body
    reaches [continue], [true] where it reaches [filtered.append]. *)
Definition keep (cfg : config) (l : listing) : bool :=
  let price := py_or (Listing.net_price l) (Listing.price l) in
  if match price with
     | Some p => negb (p =? 0) && (max_price cfg <? p)
     | None => false
     end
  then false
  else if match Listing.beds l with
          | Some beds => (beds <? min_beds cfg) || (max_beds cfg <? beds)
          | None => false
          end
  then false
  else if match Listing.baths l with
          | Some baths => float_lt_int baths (min_baths cfg)
          | None => false
          end
  then false
  else true.

Fixpoint filter_loop (cfg : config) (listings filtered : list listing)
  : list listing :=
  match listings with
  | [] => filtered
  | l :: rest =>
      filter_loop cfg rest (if keep cfg l then filtered ++ [l] else filtered)
  end.

(** [filter_listings(listings, config)] *)
Definition filter_listings (listings : list listing) (cfg : config)
  : list listing :=
  filter_loop cfg listings [].

(** ** Deduplicator: the loop over [all_listings] in [main] *)

Fixpoint unique_loop (all_listings : list listing) (seen_ids : gset string)
    (unique_listings : list listing) : list listing :=
  match all_listings with
  | [] => unique_listings
  | l :: rest =>
      if decide (Listing.id l ∈ seen_ids) then
        unique_loop rest seen_ids unique_listings
      else
        unique_loop rest ({[Listing.id l]} ∪ seen_ids) (unique_listings ++ [l])
  end.

Definition unique_listings (all_listings : list listing) : list listing :=
  unique_loop all_listings ∅ [].

(** ** Reconciliation store *)

(** A row of the table [listings]; [id] is the key of the map.  A time stamp
    is the instant [datetime.now(timezone.utc)] denotes. *)
Module Row.
Record t : Type := Make {
  first_seen : Z;
  last_seen : Z;
  address : option string;
  unit : option string;
  neighborhood : option string;
  price : option Z;
  net_price : option Z;
  beds : option Z;
  baths : option Q;
  sqft : option Z;
  url : option string;
  has_laundry : bool;
  is_no_fee : bool;
  building_name : option string;
  raw_data : option string
}.
End Row.

Abbreviation row := Row.t.
Abbreviation store := (gmap string row).

(** [SELECT id FROM listings WHERE id = ?] followed by [fetchone()]: the
    table after the query and the row fetched. *)
Definition select_id (db : store) (k : string) : store * option string :=
  (db, (λ _, k) <$> db !! k).

Fixpoint get_new_loop (db : store) (listings new_listings : list listing)
  : store * list listing :=
  match listings with
  | [] => (db, new_listings)
  | l :: rest =>
      let '(db', fetched) := select_id db (Listing.id l) in
      get_new_loop db' rest
        (if fetched is None then new_listings ++ [l] else new_listings)
  end.

(** [get_new_listings(conn, listings)]: the table afterwards and the list
    returned. *)
Definition get_new_listings (db : store) (listings : list listing)
  : store * list listing :=
  get_new_loop db listings [].

(** The row [INSERT INTO listings (...) VALUES (...)] writes: the columns
    the statement does not name are [NULL]. *)
Definition inserted_row (now : Z) (l : listing) : row :=
  {| Row.first_seen := now;
     Row.last_seen := now;
     Row.address := Listing.address l;
     Row.unit := None;
     Row.neighborhood := Some (Listing.neighborhood l);
     Row.price := Listing.price l;
     Row.net_price := Listing.net_price l;
     Row.beds := Listing.beds l;
     Row.baths := Listing.baths l;
     Row.sqft := Listing.sqft l;
     Row.url := Some (Listing.url l);
     Row.has_laundry := Listing.has_laundry l;
     Row.is_no_fee := Listing.is_no_fee l;
     Row.building_name := None;
     Row.raw_data := Some (Listing.raw_text l) |}.

(** [ON CONFLICT(id) DO UPDATE SET last_seen = ?, price = ?, net_price = ?] *)
Definition updated_row (now : Z) (l : listing) (r : row) : row :=
  {| Row.first_seen := Row.first_seen r;
     Row.last_seen := now;
     Row.address := Row.address r;
     Row.unit := Row.unit r;
     Row.neighborhood := Row.neighborhood r;
     Row.price := Listing.price l;
     Row.net_price := Listing.net_price l;
     Row.beds := Row.beds r;
     Row.baths := Row.baths r;
     Row.sqft := Row.sqft r;
     Row.url := Row.url r;
     Row.has_laundry := Row.has_laundry r;
     Row.is_no_fee := Row.is_no_fee r;
     Row.building_name := Row.building_name r;
     Row.raw_data := Row.raw_data r |}.

(** One [cursor.execute] of [save_listings]. *)
Definition upsert (now : Z) (db : store) (l : listing) : store :=
  match db !! Listing.id l with
  | None => <[Listing.id l := inserted_row now l]> db
  | Some r => <[Listing.id l := updated_row now l r]> db
  end.

(** [save_listings(conn, listings)], with [now] the time the call reads. *)
Definition save_listings (db : store) (listings : list listing) (now : Z)
  : store :=
  foldl (upsert now) db listings.

(** ** The run: [main] *)

(** [scrape_listings(driver, url)] for a page on which the browser finds the
    listing cards [cards]. *)
Definition scrape_listings (cards : list element) : list listing :=
  scrape_elements cards [].

(** The loop over [BASE_URLS]: [all_listings.extend(listings)] page by
    page. *)
Fixpoint scrape_pages (pages : list (list element))
    (all_listings : list listing) : list listing :=
  match pages with
  | [] => all_listings
  | cards :: rest => scrape_pages rest (all_listings ++ scrape_listings cards)
  end.

(** What a run leaves behind: the table, the listings it found new, the
    number of listings scraped, which are the arguments of
    [send_email_alert], and whether that function is called. *)
Record run : Type := Run {
  run_db : store;
  run_new : list listing;
  run_scraped : nat;
  run_alert : bool
}.

(** [main()] from the pages scraped on, on the table [db], at the time
    [now]. *)
Definition main (pages : list (list element)) (db : store) (now : Z) : run :=
  let all_listings := scrape_pages pages [] in
  let unique := unique_listings all_listings in
  let filtered := filter_listings unique SEARCH_CONFIG in
  let '(db1, new_listings) := get_new_listings db filtered in
  let db2 := save_listings db1 filtered now in
  {| run_db := db2;
     run_new := new_listings;
     run_scraped := length all_listings;
     run_alert := match new_listings with [] => false | _ => true end |}.

(** ** The e-mail: [format_listing_html] and [send_email_alert] *)

Definition digit_char (d : Z) : ascii := ascii_of_N (Z.to_N (48 + d)).

(** the three decimal digits of a number below 1000 *)
Definition three_digits (n : Z) : string :=
  String (digit_char (n / 100))
    (String (digit_char (n / 10 mod 10)) (String (digit_char (n mod 10)) "")).

(** [str(n)] for a number below 1000 *)
Definition upto_three_digits (n : Z) : string :=
  if n <? 10 then String (digit_char n) ""
  else if n <? 100 then
    String (digit_char (n / 10)) (String (digit_char (n mod 10)) "")
  else three_digits n.

Fixpoint thousands (fuel : nat) (n : Z) : string :=
  match fuel with
  | O => upto_three_digits n
  | S fuel' =>
      if n <? 1000 then upto_three_digits n
      else thousands fuel' (n / 1000) +:+ "," +:+ three_digits (n mod 1000)
  end.

(** [f"{n:,}"]: the decimal digits of [n], in groups of three. *)
Definition format_thousands (n : Z) : string :=
  if n <? 0 then "-" +:+ thousands (Z.to_nat (Z.log2 (- n))) (- n)
  else thousands (Z.to_nat (Z.log2 n)) n.

(** [price_display] in [format_listing_html] *)
Definition price_display (l : listing) : string :=
  match Listing.price l with
  | Some p => if p =? 0 then "Price N/A" else "$" +:+ format_thousands p
  | None => "Price N/A"
  end.

(** [net_display] in [format_listing_html] *)
Definition net_display (l : listing) : string :=
  match Listing.net_price l with
  | Some n =>
      if negb (n =? 0) && negb (bool_decide (Some n = Listing.price l)) then
        " <span style='color: #2e7d32;'>($" +:+ format_thousands n
          +:+ " net)</span>"
      else ""
  | None => ""
  end.

(** The key [send_email_alert] sorts by:
    [x.get('net_price') or x.get('price') or 999999]. *)
Definition sort_key (x : listing) : Z :=
  match py_or (py_or (Listing.net_price x) (Listing.price x)) (Some 999999) with
  | Some k => k
  | None => 999999
  end.

(** [list.sort(key=sort_key)].  Python's sort is stable, and a list has one
    stable ascending arrangement, which insertion from the right, before the
    first listing that is not cheaper, produces. *)
Fixpoint insert_sorted (x : listing) (l : list listing) : list listing :=
  match l with
  | [] => [x]
  | y :: l' =>
      if sort_key x <=? sort_key y then x :: y :: l'
      else y :: insert_sorted x l'
  end.

Definition sort_by_price (l : list listing) : list listing :=
  foldr insert_sorted [] l.

(** The pieces [listings_html] is put together from, in order: a section
    heading, a listing rendered by [format_listing_html], and the closing
    line that counts the listings left out. *)
Inductive block : Type :=
| LaundryHeading
| OtherHeading
| Card (l : listing)
| AndMore (n : nat).

(** The message handed to the mail server: the count in the subject and in
    the body, the laundry count the subject closes with when there is one,
    the pieces of [listings_html], and the number of listings scanned. *)
Record mail : Type := Mail {
  mail_count : nat;
  mail_laundry_count : option nat;
  mail_blocks : list block;
  mail_scanned : nat
}.

(** [send_email_alert(new_listings, all_count)] up to the hand-over to the
    mail server: [None] where the function returns [False] before it
    composes anything.  Whether the server then accepts the message is not
    modelled. *)
Definition send_email_alert (sender password recipient : string)
    (new_listings : list listing) (all_count : nat) : option mail :=
  if Str.is_empty sender || Str.is_empty password || Str.is_empty recipient
  then None
  else
    match new_listings with
    | [] => None
    | _ =>
        let new_listings := sort_by_price new_listings in
        let with_laundry := List.filter Listing.has_laundry new_listings in
        let without_laundry :=
          List.filter (λ l, negb (Listing.has_laundry l)) new_listings in
        let blocks1 :=
          match with_laundry with
          | [] => []
          | _ => LaundryHeading :: map Card with_laundry
          end in
        let blocks2 :=
          match without_laundry with
          | [] => []
          | _ =>
              OtherHeading :: map Card (take 10 without_laundry)
              ++ (if (10 <? length without_laundry)%nat
                  then [AndMore (length without_laundry - 10)] else [])
          end in
        Some {| mail_count := length new_listings;
                mail_laundry_count :=
                  match with_laundry with
                  | [] => None
                  | _ => Some (length with_laundry)
                  end;
                mail_blocks := blocks1 ++ blocks2;
                mail_scanned := all_count |}
    end.

(** ** The notions the properties are stated with *)

(** The effective price as the specification words it: [net_price] when it
    is there, [price] otherwise. *)
Definition claimed_effective_price (l : listing) : option Z :=
  match Listing.net_price l with
  | Some n => Some n
  | None => Listing.price l
  end.

(** A price of zero counts as no price. *)
Definition known_price (p : option Z) : option Z :=
  match p with
  | Some 0 => None
  | _ => p
  end.

(** The effective price the filter works with. *)
Definition effective_price (l : listing) : option Z :=
  match known_price (Listing.net_price l) with
  | Some n => Some n
  | None => known_price (Listing.price l)
  end.

Definition price_in_range (cfg : config) (p : option Z) : Prop :=
  ∀ v, p = Some v → v ≤ max_price cfg.

Definition beds_in_range (cfg : config) (l : listing) : Prop :=
  ∀ b, Listing.beds l = Some b → min_beds cfg ≤ b ≤ max_beds cfg.

Definition baths_in_range (cfg : config) (l : listing) : Prop :=
  ∀ x, Listing.baths l = Some x → (inject_Z (min_baths cfg) <= x)%Q.

(** The keep decision as the specification words it. *)
Definition claimed_keep (cfg : config) (l : listing) : Prop :=
  price_in_range cfg (claimed_effective_price l)
  ∧ beds_in_range cfg l ∧ baths_in_range cfg l.

(** The keep decision with a zero price read as no price. *)
Definition criteria_keep (cfg : config) (l : listing) : Prop :=
  price_in_range cfg (effective_price l)
  ∧ beds_in_range cfg l ∧ baths_in_range cfg l.

(** A value that is there and out of range: the only grounds on which a
    listing may be rejected. *)
Definition price_out_of_range (cfg : config) (l : listing) : Prop :=
  ∃ p, (Listing.net_price l = Some p ∨ Listing.price l = Some p)
       ∧ max_price cfg < p.

Definition beds_out_of_range (cfg : config) (l : listing) : Prop :=
  ∃ b, Listing.beds l = Some b ∧ (b < min_beds cfg ∨ max_beds cfg < b).

Definition baths_out_of_range (cfg : config) (l : listing) : Prop :=
  ∃ x, Listing.baths l = Some x ∧ (x < inject_Z (min_baths cfg))%Q.

(** A listing with nothing but the fields the filter reads. *)
Definition bare_listing (id : string) (price net_price beds : option Z)
    (baths : option Q) : listing :=
  {| Listing.url := "https://streeteasy.com/rental/" +:+ id;
     Listing.id := "se_" +:+ id;
     Listing.address := None;
     Listing.price := price;
     Listing.beds := beds;
     Listing.baths := baths;
     Listing.net_price := net_price;
     Listing.is_no_fee := false;
     Listing.has_laundry := false;
     Listing.sqft := None;
     Listing.neighborhood := "Brooklyn";
     Listing.raw_text := "" |}.

(** [x] is the listing at some index of [ls] with no listing of the same
    id before it. *)
Definition first_occurrence (ls : list listing) (x : listing) : Prop :=
  ∃ i, ls !! i = Some x
       ∧ ∀ j y, (j < i)%nat → ls !! j = Some y → Listing.id y ≠ Listing.id x.

(** The listings of a batch that carry the id [k], in their order. *)
Definition occurrences (k : string) (batch : list listing) : list listing :=
  List.filter (λ l, bool_decide (Listing.id l = k)) batch.



(** A store with one row, seen at time 5, and a batch that sights it again
    together with a listing not seen before. *)
Definition sample_store : gmap string row :=
  {[ "se_1" := inserted_row 5 (bare_listing "1" (Some 4000) (Some 4000) (Some 2) None) ]}.

Definition sample_batch : list listing :=
  [bare_listing "1" (Some 3900) (Some 3800) (Some 2) None;
   bare_listing "7" (Some 4100) None (Some 3) (Some (3 # 2))].

(** The URL has a numeric path segment after [pre]: a slash, the digits
    [ds], and then the end of the string or the question mark that starts a
    query string. *)
Definition numeric_segment (url pre ds : string) : Prop :=
  ∃ rest, url = pre +:+ "/" +:+ ds +:+ rest
          ∧ ds ≠ "" ∧ Str.all Str.is_digit ds = true
          ∧ (rest = "" ∨ ∃ q, rest = String "?" q).

(** The digits of the first numeric path segment of the URL. *)
Definition trailing_numeric_id (url ds : string) : Prop :=
  ∃ pre, numeric_segment url pre ds
         ∧ ∀ pre' ds', numeric_segment url pre' ds' →
             (String.length pre ≤ String.length pre')%nat.


(** No question mark, so no query string. *)
Definition no_query (s : string) : Prop :=
  Str.all (λ c, negb (Ascii.eqb c "?")) s = true.


(** [s] does not start with a character of the class [p]. *)
Definition head_not (p : ascii → bool) (s : string) : Prop :=
  match s with
  | String c _ => p c = false
  | EmptyString => True
  end.

(** The card of the scenario: the fragment text, a URL that ends in
    [/rental/123456], and whatever the browser reports besides. *)
Definition scenario_text : string :=
  "2 beds · 1 bath · $4,200/mo, no fee, in-unit washer/dryer".

Definition scenario_element (prefix html : string)
    (address price_text : option string) : element :=
  {| elem_text := scenario_text;
     elem_html := html;
     elem_href := Some (prefix +:+ "/rental/123456");
     elem_address := address;
     elem_price := price_text |}.

(** A card with the given visible text, a rental URL and no address or
    price element. *)
Definition text_card (text : string) : element :=
  {| elem_text := text;
     elem_html := "";
     elem_href := Some "https://streeteasy.com/rental/123456";
     elem_address := None;
     elem_price := None |}.

(** Net rent zero, listed rent 5000. *)
Definition zero_net_listing : listing :=
  bare_listing "1" (Some 5000) (Some 0) None None.

(** One bedroom, nothing else known. *)
Definition one_bed_listing : listing :=
  bare_listing "2" None None (Some 1) None.

(** a character that is not a decimal digit *)
Definition not_digit (c : ascii) : bool := negb (Str.is_digit c).



(** The keyword occurs in the text, in any case of the letters. *)
Definition mentions (kw text : string) : Prop :=
  ∃ a b, Str.lower text = a +:+ kw +:+ b.


(** The square-footage pattern finds a token without any digit. *)
Definition bad_sqft (text : string) : Prop :=
  ∃ m g, search sqft_rx (Str.lower text) = Some m
         ∧ group1 m = Some g ∧ Str.all not_digit g = true.

(** The listing a card yields, if it yields one. *)
Definition scraped (e : element) : option listing :=
  match scrape_element e with
  | Ok (Some l) => Some l
  | _ => None
  end.

(** [cfg'] asks for no more than [cfg] does. *)
Definition widens (cfg cfg' : config) : Prop :=
  max_price cfg ≤ max_price cfg'
  ∧ min_beds cfg' ≤ min_beds cfg ∧ max_beds cfg ≤ max_beds cfg'
  ∧ min_baths cfg' ≤ min_baths cfg.

(** Every row was first seen no later than it was last seen, and last seen
    no later than [now]. *)
Definition times_in_order (db : gmap string row) (now : Z) : Prop :=
  ∀ k r, db !! k = Some r →
    Row.first_seen r ≤ Row.last_seen r ∧ Row.last_seen r ≤ now.

(** The listings [main] calls [filtered]: scraped from the pages, first of
    their id, and within the search criteria. *)
Definition filtered (pages : list (list element)) : list listing :=
  filter_listings (unique_listings (scrape_pages pages [])) SEARCH_CONFIG.

(** The listings the message shows, in the order it shows them. *)
Definition cards (bs : list block) : list listing :=
  omap (λ b, match b with Card l => Some l | _ => None end) bs.

(** The number of listings the message says it leaves out. *)
Definition left_out (bs : list block) : nat :=
  foldr (λ b n, match b with AndMore k => (k + n)%nat | _ => n end) 0%nat bs.

(** [a] is not dearer than [b] under the key the message sorts by. *)
Definition key_le (a b : listing) : Prop := sort_key a ≤ sort_key b.

(** The listings of [ls] whose key is [k], in their order. *)
Definition with_key (k : Z) (ls : list listing) : list listing :=
  List.filter (λ l, sort_key l =? k) ls.

(** A batch of three new listings: one with a washer, two without. *)
Definition sample_new : list listing :=
  [bare_listing "3" (Some 4100) None (Some 3) None;
   {| Listing.url := "https://streeteasy.com/rental/4";
      Listing.id := "se_4";
      Listing.address := None;
      Listing.price := Some 3900;
      Listing.beds := Some 2;
      Listing.baths := None;
      Listing.net_price := Some 3700;
      Listing.is_no_fee := false;
      Listing.has_laundry := true;
      Listing.sqft := None;
      Listing.neighborhood := "Brooklyn";
      Listing.raw_text := "washer" |};
   bare_listing "5" None None (Some 2) None].

(** * Properties *)

(** Runs a bind whose first part is known. *)
Ltac step_bind := cbn [mbind result_bind].

(** ** Strings *)

Lemma str_app_cons c (a b : string) : String c a +:+ b = String c (a +:+ b).
Proof. reflexivity. Qed.

Lemma str_app_nil_l (s : string) : "" +:+ s = s.
Proof. reflexivity. Qed.

Lemma str_app_nil_r (s : string) : s +:+ "" = s.
Proof. induction s as [|c s IH]; [done|]. by rewrite str_app_cons, IH. Qed.

Lemma str_app_assoc (a b c : string) : (a +:+ b) +:+ c = a +:+ b +:+ c.
Proof. induction a as [|x a IH]; [done|]. by rewrite !str_app_cons, IH. Qed.

Lemma str_length_app (a b : string) :
  String.length (a +:+ b) = (String.length a + String.length b)%nat.
Proof. induction a as [|x a IH]; [done|]. rewrite str_app_cons. simpl. by rewrite IH. Qed.

Lemma str_take_app (a b : string) : Str.take (String.length a) (a +:+ b) = a.
Proof.
  induction a as [|x a IH]; [by destruct b|].
  rewrite str_app_cons. simpl. by rewrite IH.
Qed.


Lemma str_all_app p (a b : string) :
  Str.all p (a +:+ b) = Str.all p a && Str.all p b.
Proof.
  induction a as [|x a IH]; [done|].
  rewrite str_app_cons. simpl. by rewrite IH, andb_assoc.
Qed.


Lemma str_all_impl (p q : ascii → bool) (s : string) :
  (∀ c, p c = true → q c = true) → Str.all p s = true → Str.all q s = true.
Proof.
  intros Hpq. induction s as [|c s IH]; [done|]. simpl.
  rewrite !andb_true_iff. intros [? ?]. auto.
Qed.

Lemma consumed_app (a b : string) : consumed (a +:+ b) b = a.
Proof.
  unfold consumed. rewrite str_length_app.
  replace (String.length a + String.length b - String.length b)%nat
    with (String.length a) by lia.
  apply str_take_app.
Qed.

(** ** Matching *)

Lemma or_else_None_r {R : Type} (a : option R) : or_else a None = a.
Proof. by destruct a. Qed.

(** Every string is a run of the class followed by a rest that does not
    start in the class. *)
Lemma split_run p (s : string) :
  ∃ a b, s = a +:+ b ∧ Str.all p a = true ∧ head_not p b.
Proof.
  induction s as [|c s (a & b & -> & Ha & Hb)].
  - by exists "", "".
  - destruct (p c) eqn:Hc.
    + exists (String c a), b. simpl. by rewrite Hc, Ha.
    + by exists "", (String c (a +:+ b)).
Qed.

(** When what follows a greedy repetition cannot start in the class, giving
    characters back never helps: the repetition takes the whole run. *)
Lemma star_k_run {R : Type} p (k : string → option R) (a b : string) :
  (∀ c t, p c = true → k (String c t) = None) →
  Str.all p a = true → head_not p b →
  star_k p (a +:+ b) k = k b.
Proof.
  intros Hk. induction a as [|c a IH]; intros Ha Hb.
  - rewrite str_app_nil_l. destruct b as [|c t]; [done|].
    simpl in *. by rewrite Hb.
  - simpl in Ha. apply andb_true_iff in Ha as [Hc Ha].
    rewrite str_app_cons. simpl. rewrite Hc, IH, Hk by done.
    apply or_else_None_r.
Qed.

Lemma search_head r s m : match_at r s = Some m → search r s = Some m.
Proof. intros H. destruct s; simpl; by rewrite H. Qed.

Lemma search_skip r (pre s : string) :
  (∀ p1 p2, pre = p1 +:+ p2 → p2 ≠ "" → match_at r (p2 +:+ s) = None) →
  search r (pre +:+ s) = search r s.
Proof.
  induction pre as [|c pre IH]; intros H; [done|].
  rewrite str_app_cons. simpl. rewrite <- str_app_cons.
  rewrite (H "" (String c pre)) by done. simpl.
  apply IH. intros p1 p2 -> Hp2. by apply (H (String c p1) p2).
Qed.


Lemma star_k_inv {R : Type} p (s : string) (k : string → option R) r :
  star_k p s k = Some r →
  ∃ a b, s = a +:+ b ∧ Str.all p a = true ∧ k b = Some r.
Proof.
  induction s as [|c s IH]; simpl.
  - intros H. by exists "", "".
  - destruct (p c) eqn:Hc.
    + destruct (star_k p s k) as [r'|] eqn:E; simpl.
      * intros [= ->]. destruct (IH eq_refl) as (a & b & -> & Ha & Hb).
        exists (String c a), b. simpl. by rewrite Hc, Ha.
      * intros H. by exists "", (String c s).
    + intros H. by exists "", (String c s).
Qed.

Lemma star_k_first {R : Type} p (k : string → option R) (a b : string) r :
  Str.all p a = true → k b = Some r → head_not p b →
  star_k p (a +:+ b) k = Some r.
Proof.
  intros Ha Hk Hb. induction a as [|c a IH].
  - rewrite str_app_nil_l. destruct b as [|c t]; [done|].
    simpl in *. by rewrite Hb.
  - simpl in Ha. apply andb_true_iff in Ha as [Hc Ha].
    rewrite str_app_cons. simpl. by rewrite Hc, IH.
Qed.

Lemma group_plus_inv {R : Type} p (s : string) g
    (k : string → option string → option R) r :
  rmatch (Group (Plus p)) s g k = Some r →
  ∃ a b, s = a +:+ b ∧ a ≠ "" ∧ Str.all p a = true ∧ k b (Some a) = Some r.
Proof.
  simpl. destruct s as [|c s]; [done|]. destruct (p c) eqn:Hc; [|done].
  intros (a & b & -> & Ha & Hk)%star_k_inv.
  exists (String c a), b. split; [done|]. split; [done|].
  split; [simpl; by rewrite Hc|].
  change (String c (a +:+ b)) with (String c a +:+ b) in Hk.
  by rewrite consumed_app in Hk.
Qed.

Lemma search_inv r (s : string) m :
  search r s = Some m → ∃ x y, s = x +:+ y ∧ match_at r y = Some m.
Proof.
  induction s as [|c s IH]; simpl.
  - destruct (match_at r "") eqn:E; [|done]. intros [= ->]. by exists "", "".
  - destruct (match_at r (String c s)) eqn:E; simpl.
    + intros [= ->]. by exists "", (String c s).
    + intros (x & y & -> & H)%IH. by exists (String c x), y.
Qed.

Lemma chr_inv {R : Type} c (s : string) g
    (k : string → option string → option R) r :
  rmatch (Chr c) s g k = Some r → ∃ s', s = String c s' ∧ k s' g = Some r.
Proof.
  simpl. destruct s as [|a s]; [done|].
  destruct (Ascii.eqb_spec a c) as [->|_]; [|done]. eauto.
Qed.

Lemma or_else_Some {R : Type} (a b : option R) r :
  or_else a b = Some r → a = Some r ∨ b = Some r.
Proof. destruct a; simpl; auto. Qed.

Lemma opt_cat_inv {R : Type} r1 r2 (s : string) g
    (k : string → option string → option R) r :
  rmatch (Cat (Opt r1) r2) s g k = Some r →
  rmatch r1 s g (λ s' g', rmatch r2 s' g' k) = Some r
  ∨ rmatch r2 s g k = Some r.
Proof. apply or_else_Some. Qed.

Lemma rmatch_groupless {R : Type} r (s : string) g
    (k : string → option string → option R) x :
  groupless r = true → rmatch r s g k = Some x →
  ∃ s', k s' g = Some x.
Proof.
  revert s g k x.
  induction r as [|c|p|p|r1 IH|r1 IH1 r2 IH2|r1 IH1 r2 IH2|r1 IH|];
    intros s g k x Hr; simpl in Hr |- *.
  - eauto.
  - destruct s as [|a s]; [done|]. destruct (Ascii.eqb a c); [eauto|done].
  - intros (a & b & _ & _ & H)%star_k_inv. eauto.
  - destruct s as [|a s]; [done|]. destruct (p a); [|done].
    intros (a' & b & _ & _ & H)%star_k_inv. eauto.
  - intros [H|H]%or_else_Some; eauto.
  - apply andb_true_iff in Hr as [H1 H2].
    intros (s' & H)%IH1; [|done]. by apply IH2 in H.
  - apply andb_true_iff in Hr as [H1 H2].
    intros [H|H]%or_else_Some; eauto.
  - done.
  - destruct (at_end s); [eauto|done].
Qed.

Lemma cat_group_plus_inv {R : Type} p r2 (s : string) g
    (k : string → option string → option R) x :
  groupless r2 = true →
  rmatch (Cat (Group (Plus p)) r2) s g k = Some x →
  ∃ a s', a ≠ "" ∧ Str.all p a = true ∧ k s' (Some a) = Some x.
Proof.
  intros Hr2.
  change (rmatch (Cat (Group (Plus p)) r2) s g k)
    with (rmatch (Group (Plus p)) s g (λ s' g', rmatch r2 s' g' k)).
  intros (a & b & -> & Hne & Ha & H)%group_plus_inv.
  apply rmatch_groupless in H as (s' & H); [|done].
  by exists a, s'.
Qed.

Lemma match_at_group_plus_inv p r2 (s : string) m :
  groupless r2 = true →
  match_at (Cat (Group (Plus p)) r2) s = Some m →
  ∃ a, a ≠ "" ∧ Str.all p a = true ∧ group1 m = Some a.
Proof.
  intros Hr2 (a & s' & Hne & Ha & [= <-])%cat_group_plus_inv; [|done].
  by exists a.
Qed.

(** ** The models of [re] and [hashlib.md5] on known answers *)

Example search_id_rx_query :
  search id_rx "https://streeteasy.com/rental/123456?x=/77"
  = Some (MatchObj "/123456?" (Some "123456")).
Proof. reflexivity. Qed.

Example search_id_rx_line_feed :
  search id_rx ("a/1" +:+ String "010" "") = Some (MatchObj "/1" (Some "1")).
Proof. reflexivity. Qed.

Example search_id_rx_no_match :
  search id_rx "https://streeteasy.com/building/12/rental/4a" = None.
Proof. reflexivity. Qed.

Example search_price_rx_dollar :
  search price_rx "abc$4500/mo" = Some (MatchObj "$4500" (Some "4500")).
Proof. reflexivity. Qed.

Example search_bed_rx_first :
  search bed_rx "12 bath 3bed" = Some (MatchObj "3bed" (Some "3")).
Proof. reflexivity. Qed.

Example search_bath_rx_fraction :
  search bath_rx "2 beds · 1.5   baths"
  = Some (MatchObj "1.5   bath" (Some "1.5")).
Proof. reflexivity. Qed.

Example search_bath_rx_dot :
  search bath_rx "2 beds. bath: 1" = Some (MatchObj ". bath" (Some ".")).
Proof. reflexivity. Qed.

Example search_net_rx_spaces :
  search net_rx "pay $4,200net   effective now"
  = Some (MatchObj "$4,200net   effective" (Some "4,200")).
Proof. reflexivity. Qed.

Example search_sqft_rx_abbreviation :
  search sqft_rx "1,200 sq. ft" = Some (MatchObj "1,200 sq. ft" (Some "1,200")).
Proof. reflexivity. Qed.

Example py_float_examples :
  py_float "1.50" = Ok (3 # 2) ∧ py_float "1." = Ok 1%Q
  ∧ py_float ".5" = Ok (1 # 2) ∧ py_float "007" = Ok 7%Q
  ∧ py_float "." = Raise ValueError ∧ py_float "1.2.3" = Raise ValueError.
Proof. repeat split; reflexivity. Qed.

Example md5_empty : MD5.hexdigest "" = "d41d8cd98f00b204e9800998ecf8427e".
Proof. vm_compute. reflexivity. Qed.

Example md5_abc : MD5.hexdigest "abc" = "900150983cd24fb0d6963f7d28e17f72".
Proof. vm_compute. reflexivity. Qed.

Example md5_message_digest :
  MD5.hexdigest "message digest" = "f96b697d7cb7938d525a2f31aaf161d0".
Proof. vm_compute. reflexivity. Qed.

Example parse_price_thousands : parse_price (Some "$4,500") = Ok (Some 4500).
Proof. reflexivity. Qed.

Example generate_listing_id_building :
  generate_listing_id "https://streeteasy.com/building/the-alexander"
  = "se_96640740ca02".
Proof. vm_compute. reflexivity. Qed.

(** ** Field parsers *)

Lemma match_at_price_rx_inv (s : string) m :
  match_at price_rx s = Some m →
  ∃ x a y, s = x +:+ a +:+ y ∧ a ≠ ""
    ∧ Str.all digit_or_comma a = true ∧ group1 m = Some a.
Proof.
  unfold match_at, price_rx. intros [E|E]%opt_cat_inv.
  - apply chr_inv in E as (s' & -> & E).
    apply group_plus_inv in E as (a & b & -> & Hne & Ha & [= <-]).
    by exists (String "$" ""), a, b.
  - apply group_plus_inv in E as (a & b & -> & Hne & Ha & [= <-]).
    by exists "", a, b.
Qed.

Lemma remove_char_absent c (s : string) :
  Str.all (λ a, negb (Ascii.eqb a c)) (Str.remove_char c s) = true.
Proof.
  induction s as [|a s IH]; [done|]. simpl.
  destruct (Ascii.eqb a c) eqn:E; [done|]. simpl. by rewrite E, IH.
Qed.

Lemma remove_char_id c (s : string) :
  Str.all (λ a, negb (Ascii.eqb a c)) s = true → Str.remove_char c s = s.
Proof.
  induction s as [|a s IH]; [done|]. simpl.
  destruct (Ascii.eqb a c); [done|]. simpl. by intros ->%IH.
Qed.

Lemma digits_of_commaless (s : string) :
  Str.all digit_or_comma s = true →
  Str.all (λ a, negb (Ascii.eqb a ",")) s = true →
  Str.all Str.is_digit s = true.
Proof.
  induction s as [|a s IH]; [done|]. simpl.
  rewrite !andb_true_iff. unfold digit_or_comma at 1.
  intros [Ha Hs] [Hc Hs']. split; [|by apply IH].
  destruct (Ascii.eqb a ","); [done|]. by rewrite orb_false_r in Ha.
Qed.

Lemma py_int_digits (s : string) :
  s ≠ "" → Str.all Str.is_digit s = true →
  py_int s = Ok (Str.digits_val 0 s).
Proof.
  intros Hne Hs. unfold py_int. destruct s; [done|]. simpl Str.is_empty.
  by rewrite Hs.
Qed.

(** [parse_price] never raises. *)
Lemma parse_price_total price_str : ∃ v, parse_price price_str = Ok v.
Proof.
  destruct price_str as [s|]; [|by eexists]. unfold parse_price.
  destruct (Str.is_empty s); [by eexists|].
  destruct (search price_rx _) as [m|] eqn:Hm; [|by eexists].
  apply search_inv in Hm as (x & y & Hxy & Hm).
  apply match_at_price_rx_inv in Hm as (x' & a & y' & -> & Hne & Ha & Hg).
  pose proof (remove_char_absent "," s) as Hs.
  rewrite Hxy, !str_all_app in Hs.
  apply andb_true_iff in Hs as [_ Hs]. apply andb_true_iff in Hs as [_ Hs].
  apply andb_true_iff in Hs as [Hs _].
  unfold group1_str. rewrite Hg. simpl.
  rewrite remove_char_id by done.
  rewrite py_int_digits; [by eexists|done|by apply digits_of_commaless].
Qed.

Lemma scrape_price_total e : ∃ v, scrape_price e = Ok v.
Proof.
  unfold scrape_price.
  assert (∃ p, match elem_price e with
               | Some t => parse_price (Some t)
               | None => Ok None
               end = Ok p) as [p ->].
  { destruct (elem_price e); [apply parse_price_total|by eexists]. }
  change (∃ v, (if falsy p
                then match search dollar_rx (elem_text e) with
                     | Some m => parse_price (Some (group0 m))
                     | None => Ok p
                     end
                else Ok p) = Ok v).
  destruct (falsy p); [|by eexists].
  destruct (search dollar_rx _); [apply parse_price_total|by eexists].
Qed.

Lemma scrape_net_price_total e price : ∃ v, scrape_net_price e price = Ok v.
Proof.
  unfold scrape_net_price.
  destruct (search net_rx _) as [m|]; [|by eexists].
  destruct (group1 m); apply parse_price_total.
Qed.

Lemma py_float_raise s e : py_float s = Raise e → e = ValueError.
Proof.
  unfold py_float.
  destruct (float_scan s 0 0 None) as [[[mant [|n]] dot]|]; congruence.
Qed.

Lemma beds_part_ok text :
  ∃ b, match search bed_rx (Str.lower text) with
       | Some m =>
           g ← match group1 m with Some g => Ok g | None => Raise TypeError end;
           n ← py_int g;
           Ok (Some n)
       | None =>
           if Str.contains "studio" (Str.lower text) then Ok (Some 0)
           else Ok None
       end = Ok b.
Proof.
  destruct (search bed_rx (Str.lower text)) as [m|] eqn:Hbed.
  - apply search_inv in Hbed as (x & y & _ & Hm).
    apply match_at_group_plus_inv in Hm as (a & Hne & Ha & Hg); [|done].
    rewrite Hg. step_bind. rewrite py_int_digits by done.
    by eexists.
  - destruct (Str.contains _ _); by eexists.
Qed.

Lemma parse_beds_baths_raise_inv text e :
  parse_beds_baths text = Raise e →
  e = ValueError
  ∧ ∃ m g, search bath_rx (Str.lower text) = Some m
           ∧ group1 m = Some g ∧ py_float g = Raise ValueError.
Proof.
  unfold parse_beds_baths. destruct (beds_part_ok text) as [b ->].
  step_bind.
  destruct (search bath_rx (Str.lower text)) as [m|] eqn:Hbath; [|done].
  pose proof Hbath as (x & y & _ & Hm)%search_inv.
  apply match_at_group_plus_inv in Hm as (a & Hne & Ha & Hg); [|done].
  rewrite Hg. step_bind.
  destruct (py_float a) as [v|e'] eqn:Hf; step_bind; [done|].
  intros [= <-]. pose proof (py_float_raise _ _ Hf) as ->.
  split; [done|]. by exists m, a.
Qed.

Lemma scrape_sqft_raise_inv el e :
  scrape_sqft el = Raise e →
  e = ValueError
  ∧ ∃ m g, search sqft_rx (Str.lower (elem_text el)) = Some m
           ∧ group1 m = Some g ∧ Str.all Str.is_digit g = false.
Proof.
  unfold scrape_sqft.
  destruct (search sqft_rx _) as [m|] eqn:Hs; [|done].
  pose proof Hs as (x & y & _ & Hm)%search_inv.
  apply match_at_group_plus_inv in Hm as (a & Hne & Ha & Hg); [|done].
  unfold group1_str. rewrite Hg. step_bind.
  unfold py_int.
  destruct (Str.is_empty _) eqn:He; step_bind.
  - intros [= <-]. split; [done|]. exists m, a. repeat split; try done.
    destruct (Str.all Str.is_digit a) eqn:Hd; [|done].
    rewrite remove_char_id in He; [by destruct a|].
    eapply str_all_impl, Hd. intros c Hc.
    by destruct (Ascii.eqb_spec c ",") as [->|_].
  - destruct (Str.all Str.is_digit (Str.remove_char "," a)) eqn:Hd;
      step_bind; [done|].
    exfalso. revert Hd. clear -Ha. induction a as [|c a IH]; [done|].
    simpl in *. apply andb_true_iff in Ha as [Hc Ha].
    destruct (Ascii.eqb c ",") eqn:E; [by apply IH|]. simpl.
    unfold digit_or_comma in Hc. rewrite E, orb_false_r in Hc.
    rewrite Hc. by apply IH.
Qed.

(** A card is lost to an exception only through a bath count that is not
    a number or a square footage that is all commas. *)
Lemma scrape_element_raise_inv el e :
  scrape_element el = Raise e →
  e = ValueError
  ∧ ((∃ m g, search bath_rx (Str.lower (elem_text el)) = Some m
             ∧ group1 m = Some g ∧ py_float g = Raise ValueError)
     ∨ (∃ m g, search sqft_rx (Str.lower (elem_text el)) = Some m
               ∧ group1 m = Some g ∧ Str.all Str.is_digit g = false)).
Proof.
  unfold scrape_element. destruct (elem_href el) as [url|]; [|done].
  destruct (Str.is_empty url); [done|].
  destruct (scrape_price_total el) as [price ->]. step_bind.
  destruct (parse_beds_baths (elem_text el)) as [[beds baths]|e'] eqn:Hb;
    step_bind.
  - destruct (scrape_net_price_total el price) as [net ->].
    step_bind.
    destruct (scrape_sqft el) as [sqft|e'] eqn:Hs; step_bind;
      [done|].
    intros [= <-]. apply scrape_sqft_raise_inv in Hs as [-> Hs]. auto.
  - intros [= <-]. apply parse_beds_baths_raise_inv in Hb as [-> Hb]. auto.
Qed.

Lemma remove_char_digits (g : string) :
  Str.all digit_or_comma g = true →
  Str.all Str.is_digit (Str.remove_char "," g) = true.
Proof.
  induction g as [|c g IH]; [done|]. simpl.
  intros [Hc Hg]%andb_true_iff.
  destruct (Ascii.eqb c ",") eqn:E; [by apply IH|]. simpl.
  unfold digit_or_comma in Hc. rewrite E, orb_false_r in Hc.
  rewrite Hc. by apply IH.
Qed.

Lemma digit_is_digit_or_comma (s : string) :
  Str.all Str.is_digit s = true → Str.all digit_or_comma s = true.
Proof.
  apply str_all_impl. intros c Hc. unfold digit_or_comma. by rewrite Hc.
Qed.

(** On a run of digits the price pattern matches at once and takes it all. *)
Lemma search_price_rx_digits (s : string) :
  s ≠ "" → Str.all Str.is_digit s = true →
  search price_rx s = Some (MatchObj s (Some s)).
Proof.
  intros Hne Hs. apply search_head. destruct s as [|d s]; [done|].
  simpl in Hs. apply andb_true_iff in Hs as [Hd Hs].
  unfold match_at, price_rx.
  change (rmatch (Cat (Opt (Chr "$")) (Group (Plus digit_or_comma)))
            (String d s) None ?k)
    with (or_else
            (rmatch (Chr "$") (String d s) None
               (λ s' g', rmatch (Group (Plus digit_or_comma)) s' g' k))
            (rmatch (Group (Plus digit_or_comma)) (String d s) None k)).
  assert (Ascii.eqb d "$" = false) as Hdollar
    by by destruct (Ascii.eqb_spec d "$") as [->|_].
  cbn [rmatch]. rewrite Hdollar. cbn [or_else].
  unfold digit_or_comma at 1. rewrite Hd. cbn [orb].
  rewrite <- (str_app_nil_r s) at 1.
  erewrite star_k_first; [| by apply digit_is_digit_or_comma | reflexivity | done].
  f_equal. unfold consumed. simpl String.length.
  rewrite Nat.sub_0_r.
  change (S (String.length s)) with (String.length (String d s)).
  rewrite <- (str_app_nil_r (String d s)) at 2 4.
  by rewrite str_take_app.
Qed.

(** [parse_price] on a run of digits and commas: the number its digits
    spell, and nothing when it holds no digit. *)
Lemma parse_price_amount (g : string) :
  Str.all digit_or_comma g = true →
  parse_price (Some g)
  = Ok (if Str.is_empty (Str.remove_char "," g) then None
        else Some (Str.digits_val 0 (Str.remove_char "," g))).
Proof.
  intros Hg. unfold parse_price.
  pose proof (remove_char_digits g Hg) as Hd.
  destruct (Str.is_empty g) eqn:Hg0; [by destruct g|].
  destruct (Str.remove_char "," g) as [|d s] eqn:E; [done|].
  rewrite search_price_rx_digits by done.
  unfold group1_str. cbn [group1]; step_bind.
  rewrite remove_char_id.
  - by rewrite py_int_digits.
  - rewrite <- E. apply remove_char_absent.
Qed.

Lemma match_at_net_rx_inv (s : string) m :
  match_at net_rx s = Some m →
  ∃ g, g ≠ "" ∧ Str.all digit_or_comma g = true ∧ group1 m = Some g.
Proof.
  unfold match_at, net_rx.
  change (rmatch (Cat (Chr "$") ?r) s None ?k)
    with (rmatch (Chr "$") s None (λ s' g', rmatch r s' g' k)).
  intros (s' & -> & H)%chr_inv.
  apply cat_group_plus_inv in H as (a & s'' & Hne & Ha & [= <-]); [|done].
  by exists a.
Qed.

(** The net rent of a card, case by case. *)
Lemma scrape_net_price_cases e price :
  match search net_rx (Str.lower (elem_text e)) with
  | None => scrape_net_price e price = Ok price
  | Some m =>
      ∃ g, group1 m = Some g ∧ g ≠ "" ∧ Str.all digit_or_comma g = true
           ∧ scrape_net_price e price
             = Ok (if Str.is_empty (Str.remove_char "," g) then None
                   else Some (Str.digits_val 0 (Str.remove_char "," g)))
  end.
Proof.
  unfold scrape_net_price.
  destruct (search net_rx (Str.lower (elem_text e))) as [m|] eqn:Hs; [|done].
  apply search_inv in Hs as (x & y & _ & Hm).
  apply match_at_net_rx_inv in Hm as (g & Hne & Hg & ->).
  exists g. by rewrite parse_price_amount.
Qed.

(** Without a "net effective" phrase the net rent is the listed price. *)
Lemma scrape_net_price_fallback e price :
  search net_rx (Str.lower (elem_text e)) = None →
  scrape_net_price e price = Ok price.
Proof. unfold scrape_net_price. by intros ->. Qed.

(** C7.  A field parser can raise.  On the text "Renovated apt. Bathroom
    with tub" the bath pattern takes the dot before "Bathroom" for the
    number, [float] refuses it, and [parse_beds_baths] raises [ValueError],
    which costs the card its listing; the square-footage parser raises the
    same way on a comma before "sq ft".  [parse_price] returns nothing on
    a missing or empty argument. *)
Theorem parse_beds_baths_raises :
  parse_beds_baths "Renovated apt. Bathroom with tub" = Raise ValueError
  ∧ scrape_element (text_card "Renovated apt. Bathroom with tub")
    = Raise ValueError
  ∧ scrape_sqft (text_card "Spacious, sq ft on request") = Raise ValueError
  ∧ scrape_elements [text_card "Renovated apt. Bathroom with tub"] [] = []
  ∧ parse_price None = Ok None ∧ parse_price (Some "") = Ok None.
Proof. repeat split; vm_compute; reflexivity. Qed.

(** C8.  On the text "$4,000/mo $, net effective" the listed price is 4000
    and no dollar amount stands before "net effective", yet the net rent
    is not the listed price: the pattern takes the comma for the amount,
    [parse_price] finds no digit in it, and [net_price] is left empty. *)
Theorem net_price_comma_amount :
  ∃ l, scrape_element (text_card "$4,000/mo $, net effective") = Ok (Some l)
       ∧ Listing.price l = Some 4000
       ∧ Listing.net_price l = None.
Proof. eexists. split; [vm_compute; reflexivity|]. by split. Qed.

(** ** The pattern of [generate_listing_id] *)

Lemma match_at_id_rx_run b (ds rest : string) :
  Str.is_digit b = true → Str.all Str.is_digit ds = true →
  head_not Str.is_digit rest →
  match_at id_rx (String "/" (String b (ds +:+ rest)))
  = match rest with
    | String c t =>
        if Ascii.eqb c "?" then
          Some (MatchObj (consumed (String "/" (String b (ds +:+ rest))) t)
                  (Some (String b ds)))
        else if at_end rest then
          Some (MatchObj (consumed (String "/" (String b (ds +:+ rest))) rest)
                  (Some (String b ds)))
        else None
    | EmptyString =>
        Some (MatchObj (consumed (String "/" (String b (ds +:+ rest))) rest)
                (Some (String b ds)))
    end.
Proof.
  intros Hb Hds Hrest. unfold match_at, id_rx. simpl. rewrite Hb.
  rewrite star_k_run; [|intros c t Hc|done|done].
  - change (String b (ds +:+ rest)) with (String b ds +:+ rest) at 2 4.
    rewrite consumed_app.
    destruct rest as [|c t]; [done|].
    by destruct (Ascii.eqb c "?").
  - destruct (Ascii.eqb_spec c "?") as [->|_]; [done|].
    simpl. destruct t; [|done].
    by destruct (Ascii.eqb_spec c "010") as [->|_].
Qed.

Lemma match_at_id_rx_inv s m :
  match_at id_rx s = Some m →
  ∃ ds rest, s = "/" +:+ ds +:+ rest
    ∧ ds ≠ "" ∧ Str.all Str.is_digit ds = true
    ∧ (rest = "" ∨ rest = String "010" "" ∨ ∃ q, rest = String "?" q)
    ∧ group1 m = Some ds.
Proof.
  destruct s as [|a [|b s2]]; try done.
  - unfold match_at, id_rx. simpl. by destruct (Ascii.eqb a "/").
  - destruct (Ascii.eqb_spec a "/") as [->|Ha];
      [|unfold match_at, id_rx; simpl;
        by rewrite (proj2 (Ascii.eqb_neq _ _) Ha)].
    destruct (Str.is_digit b) eqn:Hb;
      [|unfold match_at, id_rx; simpl; by rewrite Hb].
    destruct (split_run Str.is_digit s2) as (ds & rest & -> & Hds & Hrest).
    rewrite match_at_id_rx_run by done.
    intros Hm. exists (String b ds), rest.
    split; [done|]. split; [done|]. split; [simpl; by rewrite Hb|].
    destruct rest as [|c t].
    + injection Hm as <-. auto.
    + destruct (Ascii.eqb_spec c "?") as [->|_].
      * injection Hm as <-. split; [|done]. right; right. by exists t.
      * simpl in Hm. destruct t; [|done].
        destruct (Ascii.eqb_spec c "010") as [->|_]; [|done].
        injection Hm as <-. auto.
Qed.

Lemma match_at_id_rx_segment (ds rest : string) :
  ds ≠ "" → Str.all Str.is_digit ds = true →
  (rest = "" ∨ ∃ q, rest = String "?" q) →
  ∃ w, match_at id_rx ("/" +:+ ds +:+ rest) = Some (MatchObj w (Some ds)).
Proof.
  intros Hne Hds Hrest. destruct ds as [|b ds]; [done|].
  simpl in Hds. apply andb_true_iff in Hds as [Hb Hds].
  change ("/" +:+ String b ds +:+ rest)
    with (String "/" (String b (ds +:+ rest))).
  rewrite match_at_id_rx_run; [|done|done|].
  - destruct Hrest as [->|[q ->]]; eauto.
  - by destruct Hrest as [->|[q ->]].
Qed.

Lemma digits_no_slash (a b ds : string) :
  Str.all Str.is_digit ds = true →
  a +:+ String "/" b ≠ ds +:+ String "010" "".
Proof.
  revert a. induction ds as [|d ds IH]; intros a Hds.
  - destruct a as [|c [|c' a]]; done.
  - simpl in Hds. apply andb_true_iff in Hds as [Hd Hds].
    destruct a as [|c a].
    + rewrite str_app_nil_l, str_app_cons. intros [= <- _]. done.
    + rewrite !str_app_cons. intros [= _ H]. by apply (IH a).
Qed.

Lemma search_id_rx_segment url pre ds :
  numeric_segment url pre ds →
  (∀ pre' ds', numeric_segment url pre' ds' →
     (String.length pre ≤ String.length pre')%nat) →
  ∃ w, search id_rx url = Some (MatchObj w (Some ds)).
Proof.
  intros (rest & -> & Hne & Hds & Hrest) Hleft.
  destruct (match_at_id_rx_segment ds rest Hne Hds Hrest) as [w Hw].
  exists w. rewrite search_skip; [by apply search_head|].
  intros p1 p2 -> Hp2.
  destruct (match_at id_rx (p2 +:+ "/" +:+ ds +:+ rest)) as [m|] eqn:Hm;
    [exfalso|done].
  apply match_at_id_rx_inv in Hm
    as (ds' & rest' & E & Hne' & Hds' & Hrest' & _).
  assert (rest' = String "010" "" ∨ (rest' = "" ∨ ∃ q, rest' = String "?" q))
    as [->|Hrest''] by tauto.
  - destruct p2 as [|c p2]; [done|].
    rewrite !str_app_cons, str_app_nil_l in E. injection E as _ E.
    by apply digits_no_slash in E.
  - assert (String.length (p1 +:+ p2) ≤ String.length p1)%nat as Hlen.
    { apply (Hleft p1 ds'). exists rest'.
      by rewrite str_app_assoc, E. }
    rewrite str_length_app in Hlen. destruct p2; [done|]. simpl in Hlen. lia.
Qed.



Lemma digit_not_query c :
  Str.is_digit c = true → negb (Ascii.eqb c "?") = true.
Proof. by destruct (Ascii.eqb_spec c "?") as [->|_]. Qed.

(** A string that ends in a slash and a run of digits splits there in one
    way only. *)
Lemma last_slash_unique (a b d1 d2 : string) :
  Str.all Str.is_digit d1 = true → Str.all Str.is_digit d2 = true →
  a +:+ String "/" d1 = b +:+ String "/" d2 → a = b ∧ d1 = d2.
Proof.
  intros H1 H2. revert b. induction a as [|c a IH]; intros [|c' b] E.
  - by injection E as ->.
  - rewrite str_app_nil_l, str_app_cons in E. injection E as <- ->.
    rewrite str_all_app in H1. simpl in H1.
    by rewrite andb_false_r in H1.
  - rewrite str_app_nil_l, str_app_cons in E. injection E as -> <-.
    rewrite str_all_app in H2. simpl in H2.
    by rewrite andb_false_r in H2.
  - rewrite !str_app_cons in E. injection E as <- E.
    destruct (IH b E) as [-> ->]. done.
Qed.

Lemma segment_at_end (prefix ds : string) :
  no_query prefix → ds ≠ "" → Str.all Str.is_digit ds = true →
  trailing_numeric_id (prefix +:+ "/" +:+ ds) ds.
Proof.
  intros Hq Hne Hds. exists prefix. split.
  - exists "". by rewrite str_app_nil_r; auto.
  - intros pre' ds' (rest & E & Hne' & Hds' & [->|[q ->]]).
    + rewrite str_app_nil_r in E.
      by destruct (last_slash_unique _ _ _ _ Hds Hds' E) as [-> _].
    + exfalso.
      assert (no_query (prefix +:+ "/" +:+ ds)) as Hall.
      { unfold no_query in *. rewrite !str_all_app, Hq. simpl.
        by apply (str_all_impl Str.is_digit), Hds; apply digit_not_query. }
      rewrite E in Hall. unfold no_query in Hall.
      rewrite !str_all_app in Hall. simpl in Hall.
      by rewrite !andb_false_r in Hall.
Qed.


Lemma generate_listing_id_segment url ds :
  trailing_numeric_id url ds → generate_listing_id url = "se_" +:+ ds.
Proof.
  intros (pre & Hseg & Hleft).
  destruct (search_id_rx_segment url pre ds Hseg Hleft) as [w Hw].
  unfold generate_listing_id. by rewrite Hw.
Qed.


(** ** The digest *)










(** ** Listing extractor *)

(** The card that every parser accepts. *)
Lemma scrape_element_ok e url price beds baths net_price sqft :
  elem_href e = Some url → Str.is_empty url = false →
  scrape_price e = Ok price →
  parse_beds_baths (elem_text e) = Ok (beds, baths) →
  scrape_net_price e price = Ok net_price →
  scrape_sqft e = Ok sqft →
  scrape_element e
  = Ok (Some {|
      Listing.url := url;
      Listing.id := generate_listing_id url;
      Listing.address := Str.strip <$> elem_address e;
      Listing.price := price;
      Listing.beds := beds;
      Listing.baths := baths;
      Listing.net_price := net_price;
      Listing.is_no_fee := Str.contains "no fee" (Str.lower (elem_text e));
      Listing.has_laundry :=
        check_has_laundry (elem_text e) || check_has_laundry (elem_html e);
      Listing.sqft := sqft;
      Listing.neighborhood := scrape_neighborhood url;
      Listing.raw_text := Str.take 500 (elem_text e)
    |}).
Proof.
  intros Hurl Hne Hp Hb Hn Hs. unfold scrape_element.
  rewrite Hurl, Hne, Hp. simpl. rewrite Hb. simpl. rewrite Hn. simpl.
  by rewrite Hs.
Qed.

Lemma is_empty_app_cons (a : string) c (b : string) :
  Str.is_empty (a +:+ String c b) = false.
Proof. by destruct a. Qed.

Lemma generate_listing_id_rental (prefix : string) :
  no_query prefix →
  generate_listing_id (prefix +:+ "/rental/123456") = "se_123456".
Proof.
  intros Hq. apply generate_listing_id_segment.
  replace (prefix +:+ "/rental/123456")
    with ((prefix +:+ "/rental") +:+ "/" +:+ "123456")
    by by rewrite str_app_assoc.
  apply segment_at_end; [|done|done].
  unfold no_query in *. by rewrite str_all_app, Hq.
Qed.

(** C9.  The scenario: a card whose text is "2 beds · 1 bath · $4,200/mo,
    no fee, in-unit washer/dryer" and whose URL ends in [/rental/123456]
    (the part before it holding no query string), with no price element or
    one that shows the price, yields a listing with two beds, one bath, the
    price 4200, the no-fee and laundry flags set, and the id [se_123456]. *)
Theorem scenario_listing prefix html address price_text :
  no_query prefix →
  price_text = None ∨ price_text = Some "$4,200"
  ∨ price_text = Some "$4,200/mo" →
  ∃ l, scrape_element (scenario_element prefix html address price_text)
       = Ok (Some l)
       ∧ Listing.beds l = Some 2
       ∧ Listing.baths l = Some 1%Q
       ∧ Listing.price l = Some 4200
       ∧ Listing.is_no_fee l = true
       ∧ Listing.has_laundry l = true
       ∧ Listing.id l = "se_123456".
Proof.
  intros Hq Hp. eexists. split.
  - apply (scrape_element_ok _ (prefix +:+ "/rental/123456")
             (Some 4200) (Some 2) (Some 1%Q) (Some 4200) None).
    + done.
    + apply is_empty_app_cons.
    + destruct Hp as [->|[->| ->]]; vm_compute; reflexivity.
    + vm_compute; reflexivity.
    + vm_compute; reflexivity.
    + vm_compute; reflexivity.
  - simpl. repeat split; try done.
    by apply generate_listing_id_rental.
Qed.

(** The scenario on the site's own URL, with no price element. *)
Lemma scenario_listing_witness :
  ∃ l, scrape_element
         (scenario_element "https://streeteasy.com" "" None None)
       = Ok (Some l)
       ∧ Listing.beds l = Some 2
       ∧ Listing.baths l = Some 1%Q
       ∧ Listing.price l = Some 4200
       ∧ Listing.is_no_fee l = true
       ∧ Listing.has_laundry l = true
       ∧ Listing.id l = "se_123456".
Proof.
  apply (scenario_listing "https://streeteasy.com" "" None None).
  - reflexivity.
  - by left.
Defined.

(** ** Criteria filter *)

Lemma filter_loop_filter cfg ls acc :
  filter_loop cfg ls acc = acc ++ List.filter (keep cfg) ls.
Proof.
  revert acc. induction ls as [|l ls IH]; intros acc; simpl.
  - by rewrite app_nil_r.
  - rewrite IH. destruct (keep cfg l); [|done].
    by rewrite <- app_assoc.
Qed.

Lemma filter_listings_filter ls cfg :
  filter_listings ls cfg = List.filter (keep cfg) ls.
Proof. unfold filter_listings. by rewrite filter_loop_filter. Qed.

Lemma list_filter_sublist {A : Type} (f : A → bool) (l : list A) :
  List.filter f l `sublist_of` l.
Proof.
  induction l as [|x l IH]; simpl; [constructor|].
  destruct (f x); by constructor.
Qed.

Lemma elem_of_filter_listings ls cfg l :
  l ∈ filter_listings ls cfg ↔ l ∈ ls ∧ keep cfg l = true.
Proof.
  rewrite filter_listings_filter, !list_elem_of_In. apply filter_In.
Qed.

Lemma float_lt_int_spec x n :
  float_lt_int x n = true ↔ (x < inject_Z n)%Q.
Proof.
  unfold float_lt_int. rewrite negb_true_iff.
  destruct (Qle_bool (inject_Z n) x) eqn:E.
  - apply Qle_bool_iff in E. split; [done|].
    intros H. by apply Qlt_not_le in H.
  - split; [intros _|done]. apply Qnot_le_lt. intros H.
    apply Qle_bool_iff in H. congruence.
Qed.

Lemma float_lt_int_false x n :
  float_lt_int x n = false ↔ (inject_Z n <= x)%Q.
Proof.
  unfold float_lt_int. rewrite negb_false_iff. apply Qle_bool_iff.
Qed.

Lemma py_or_effective l :
  known_price (py_or (Listing.net_price l) (Listing.price l))
  = effective_price l.
Proof.
  unfold py_or, effective_price, falsy, known_price.
  destruct (Listing.net_price l) as [[|n|n]|]; simpl; try done.
Qed.

(** The three tests of the loop body, one by one. *)
Lemma price_test_false cfg (price : option Z) :
  match price with
  | Some p => negb (p =? 0) && (max_price cfg <? p)
  | None => false
  end = false ↔ price_in_range cfg (known_price price).
Proof.
  unfold price_in_range. destruct price as [p|]; simpl; [|done].
  destruct (Z.eqb_spec p 0) as [->|Hp]; simpl; [done|].
  destruct (Z.ltb_spec (max_price cfg) p) as [Hlt|Hle].
  - split; [done|]. intros H.
    assert (p ≤ max_price cfg) by (apply H; by destruct p). lia.
  - split; [|done]. intros _ v Hv.
    assert (v = p) as -> by (destruct p; congruence). lia.
Qed.

Lemma beds_test_false cfg l :
  match Listing.beds l with
  | Some beds => (beds <? min_beds cfg) || (max_beds cfg <? beds)
  | None => false
  end = false ↔ beds_in_range cfg l.
Proof.
  unfold beds_in_range. destruct (Listing.beds l) as [b|]; [|done].
  rewrite orb_false_iff, !Z.ltb_ge. split.
  - intros [??] b' [= <-]. lia.
  - intros H. specialize (H b eq_refl). lia.
Qed.

Lemma baths_test_false cfg l :
  match Listing.baths l with
  | Some baths => float_lt_int baths (min_baths cfg)
  | None => false
  end = false ↔ baths_in_range cfg l.
Proof.
  unfold baths_in_range. destruct (Listing.baths l) as [x|]; [|done].
  rewrite float_lt_int_false. split.
  - by intros H x' [= <-].
  - intros H. by apply H.
Qed.

Lemma keep_true_iff cfg l :
  keep cfg l = true ↔ criteria_keep cfg l.
Proof.
  unfold criteria_keep.
  rewrite <- py_or_effective, <- price_test_false, <- beds_test_false,
    <- baths_test_false.
  unfold keep.
  set (t1 := match py_or _ _ with Some _ => _ | None => _ end).
  set (t2 := match Listing.beds l with Some _ => _ | None => _ end).
  set (t3 := match Listing.baths l with Some _ => _ | None => _ end).
  destruct t1, t2, t3; intuition congruence.
Qed.

Lemma keep_false_inv cfg l :
  keep cfg l = false →
  match py_or (Listing.net_price l) (Listing.price l) with
  | Some p => negb (p =? 0) && (max_price cfg <? p)
  | None => false
  end = true
  ∨ match Listing.beds l with
    | Some beds => (beds <? min_beds cfg) || (max_beds cfg <? beds)
    | None => false
    end = true
  ∨ match Listing.baths l with
    | Some baths => float_lt_int baths (min_baths cfg)
    | None => false
    end = true.
Proof.
  unfold keep.
  set (t1 := match py_or _ _ with Some _ => _ | None => _ end).
  set (t2 := match Listing.beds l with Some _ => _ | None => _ end).
  set (t3 := match Listing.baths l with Some _ => _ | None => _ end).
  destruct t1, t2, t3; intuition congruence.
Qed.

Lemma price_test_true cfg (price : option Z) :
  match price with
  | Some p => negb (p =? 0) && (max_price cfg <? p)
  | None => false
  end = true →
  ∃ p, price = Some p ∧ max_price cfg < p.
Proof.
  destruct price as [p|]; [|done].
  rewrite andb_true_iff, Z.ltb_lt. intros [_ ?]. by exists p.
Qed.

Lemma beds_test_true cfg l :
  match Listing.beds l with
  | Some beds => (beds <? min_beds cfg) || (max_beds cfg <? beds)
  | None => false
  end = true →
  beds_out_of_range cfg l.
Proof.
  unfold beds_out_of_range. destruct (Listing.beds l) as [b|]; [|done].
  rewrite orb_true_iff, !Z.ltb_lt. intros ?. by exists b.
Qed.

Lemma baths_test_true cfg l :
  match Listing.baths l with
  | Some baths => float_lt_int baths (min_baths cfg)
  | None => false
  end = true →
  baths_out_of_range cfg l.
Proof.
  unfold baths_out_of_range. destruct (Listing.baths l) as [x|]; [|done].
  rewrite float_lt_int_spec. intros ?. by exists x.
Qed.

Lemma py_or_Some x y p : py_or x y = Some p → x = Some p ∨ y = Some p.
Proof. unfold py_or. destruct (falsy x); auto. Qed.

(** A card that advertises a net rent of zero yields such a listing, and
    the filter rejects it on its listed price. *)
Example zero_net_price_scraped :
  ∃ l, scrape_element (text_card "$5,000/mo, $0 net effective") = Ok (Some l)
       ∧ Listing.price l = Some 5000 ∧ Listing.net_price l = Some 0
       ∧ keep SEARCH_CONFIG l = false.
Proof. eexists. split; [vm_compute; reflexivity|]. by repeat split. Qed.

(** C1 (as amended).  A listing is in the output of the Criteria Filter
    exactly when it is in the input and: its effective price, which is
    [net_price] when that is present and not zero and otherwise [price], a
    price of zero counting as absent, does not exceed [max_price] when
    there is one; [beds], when present, lies in [[min_beds, max_beds]]; and
    [baths], when present, is at least [min_baths]. *)
Theorem filter_listings_criteria ls cfg l :
  l ∈ filter_listings ls cfg ↔ l ∈ ls ∧ criteria_keep cfg l.
Proof. by rewrite elem_of_filter_listings, keep_true_iff. Qed.

(** C1 as worded fails: with [net_price = 0] and [price = 5000] the
    effective price of the specification is 0, within [max_price = 4500],
    yet the filter falls through to [price] and rejects the listing. *)
Lemma filter_listings_zero_net_price :
  claimed_keep SEARCH_CONFIG zero_net_listing
  ∧ filter_listings [zero_net_listing] SEARCH_CONFIG = [].
Proof.
  split; [|reflexivity].
  split; [|split].
  - intros v [= <-]. simpl. lia.
  - intros b [=].
  - intros x [=].
Qed.

(** C2.  The Criteria Filter never rejects a listing for a field that is
    absent: a listing of the input that is not in the output has a price,
    a bed count or a bath count that is present and out of range; and a
    dimension whose fields are absent leaves the decision to the other
    two. *)
Theorem filter_rejects_only_present_values ls cfg l :
  l ∈ ls →
  (l ∉ filter_listings ls cfg →
     price_out_of_range cfg l ∨ beds_out_of_range cfg l
     ∨ baths_out_of_range cfg l)
  ∧ (Listing.net_price l = None → Listing.price l = None →
     (l ∈ filter_listings ls cfg ↔ beds_in_range cfg l ∧ baths_in_range cfg l))
  ∧ (Listing.beds l = None →
     (l ∈ filter_listings ls cfg ↔
        price_in_range cfg (effective_price l) ∧ baths_in_range cfg l))
  ∧ (Listing.baths l = None →
     (l ∈ filter_listings ls cfg ↔
        price_in_range cfg (effective_price l) ∧ beds_in_range cfg l)).
Proof.
  intros Hin. rewrite elem_of_filter_listings.
  split; [|rewrite keep_true_iff; unfold criteria_keep; split; [|split]].
  - intros Hout.
    assert (keep cfg l = false) as Hk
      by (destruct (keep cfg l); [exfalso; by apply Hout|done]).
    apply keep_false_inv in Hk as [Hk|[Hk|Hk]].
    + left. apply price_test_true in Hk as (p & Hp & Hlt).
      exists p. split; [by apply py_or_Some|done].
    + right; left. by apply beds_test_true.
    + right; right. by apply baths_test_true.
  - intros Hn Hp.
    assert (price_in_range cfg (effective_price l)) as Hr.
    { unfold effective_price. rewrite Hn, Hp. by intros v. }
    tauto.
  - intros Hb.
    assert (beds_in_range cfg l) by (intros b; rewrite Hb; done).
    tauto.
  - intros Hx.
    assert (baths_in_range cfg l) by (intros x; rewrite Hx; done).
    tauto.
Qed.

(** A listing with one bedroom and nothing else known is rejected under
    [SEARCH_CONFIG], on its bed count; its bath count, being absent, has no
    say. *)
Lemma filter_rejects_only_present_values_witness :
  (price_out_of_range SEARCH_CONFIG one_bed_listing
   ∨ beds_out_of_range SEARCH_CONFIG one_bed_listing
   ∨ baths_out_of_range SEARCH_CONFIG one_bed_listing)
  ∧ (one_bed_listing ∈ filter_listings [one_bed_listing] SEARCH_CONFIG ↔
       price_in_range SEARCH_CONFIG (effective_price one_bed_listing)
       ∧ beds_in_range SEARCH_CONFIG one_bed_listing).
Proof.
  assert (one_bed_listing ∈ [one_bed_listing]) as Hin
    by (apply list_elem_of_In; simpl; by left).
  split.
  - refine (proj1 (filter_rejects_only_present_values
                     [one_bed_listing] SEARCH_CONFIG one_bed_listing Hin) _).
    vm_compute. inversion 1.
  - exact (proj2 (proj2 (proj2 (filter_rejects_only_present_values
                     [one_bed_listing] SEARCH_CONFIG one_bed_listing Hin)))
             eq_refl).
Defined.

(** C10.  The output of the Criteria Filter is a subsequence of its input:
    it is the input with some listings left out, so the listings kept are
    those of the input, unchanged, in their order, none of them repeated. *)
Theorem filter_listings_subsequence ls cfg :
  filter_listings ls cfg `sublist_of` ls
  ∧ filter_listings ls cfg = List.filter (keep cfg) ls.
Proof.
  rewrite filter_listings_filter. split; [apply list_filter_sublist|done].
Qed.

(** ** Deduplicator *)

Lemma unique_loop_acc ls seen acc :
  unique_loop ls seen acc = acc ++ unique_loop ls seen [].
Proof.
  revert seen acc. induction ls as [|l ls IH]; intros seen acc; simpl.
  - by rewrite app_nil_r.
  - case_decide; [apply IH|].
    rewrite (IH _ (acc ++ [l])), (IH _ [l]). by rewrite <- app_assoc.
Qed.

Lemma unique_loop_cons l ls seen :
  unique_loop (l :: ls) seen []
  = if decide (Listing.id l ∈ seen) then unique_loop ls seen []
    else l :: unique_loop ls ({[Listing.id l]} ∪ seen) [].
Proof. simpl. case_decide; [done|]. by rewrite unique_loop_acc. Qed.

Lemma unique_loop_sublist ls seen :
  unique_loop ls seen [] `sublist_of` ls.
Proof.
  revert seen. induction ls as [|l ls IH]; intros seen.
  - constructor.
  - rewrite unique_loop_cons. case_decide; constructor; apply IH.
Qed.

Lemma unique_loop_fresh ls seen x :
  x ∈ unique_loop ls seen [] → Listing.id x ∉ seen.
Proof.
  revert seen. induction ls as [|l ls IH]; intros seen.
  - simpl. by intros ?%elem_of_nil.
  - rewrite unique_loop_cons. case_decide as Hl; [apply IH|].
    intros [->|Hx]%elem_of_cons; [done|].
    apply IH in Hx. set_solver.
Qed.

Lemma unique_loop_NoDup ls seen :
  NoDup (Listing.id <$> unique_loop ls seen []).
Proof.
  revert seen. induction ls as [|l ls IH]; intros seen.
  - constructor.
  - rewrite unique_loop_cons. case_decide as Hl; [apply IH|].
    rewrite fmap_cons. constructor; [|apply IH].
    intros (y & Hy & Hin)%list_elem_of_fmap.
    apply unique_loop_fresh in Hin. set_solver.
Qed.

Lemma unique_loop_covers ls seen x :
  x ∈ ls →
  Listing.id x ∈ seen
  ∨ Listing.id x ∈ (Listing.id <$> unique_loop ls seen []).
Proof.
  revert seen. induction ls as [|l ls IH]; intros seen.
  - by intros ?%elem_of_nil.
  - rewrite unique_loop_cons. intros [->|Hx]%elem_of_cons.
    + case_decide; [by left|]. right. rewrite fmap_cons. by left.
    + case_decide as Hl; [by apply IH|].
      destruct (IH ({[Listing.id l]} ∪ seen) Hx) as [Hs|Hu].
      * apply elem_of_union in Hs as [->%elem_of_singleton|?]; [|by left].
        right. rewrite fmap_cons. by left.
      * right. rewrite fmap_cons. by right.
Qed.

Lemma unique_loop_first ls seen x :
  x ∈ unique_loop ls seen []
  ↔ (Listing.id x ∉ seen) ∧ first_occurrence ls x.
Proof.
  revert seen. induction ls as [|l ls IH]; intros seen.
  - simpl. split; [by intros ?%elem_of_nil|].
    by intros [_ (i & ? & _)].
  - rewrite unique_loop_cons. case_decide as Hl.
    + rewrite IH. split; intros [Hx (i & Hi & Hfirst)]; (split; [done|]).
      * exists (S i). split; [done|]. intros [|j] y Hj Hy.
        -- injection Hy as <-. intros E. by rewrite E in Hl.
        -- apply (Hfirst j); [lia|done].
      * destruct i as [|i]; [injection Hi as <-; done|].
        exists i. split; [done|]. intros j y Hj Hy.
        apply (Hfirst (S j)); [lia|done].
    + rewrite elem_of_cons, IH. split.
      * intros [->|[Hx (i & Hi & Hfirst)]].
        -- split; [done|]. exists O. split; [done|]. intros; lia.
        -- rewrite elem_of_union, elem_of_singleton in Hx.
           split; [tauto|]. exists (S i). split; [done|].
           intros [|j] y Hj Hy.
           ++ injection Hy as <-. intros E. apply Hx. by left.
           ++ apply (Hfirst j); [lia|done].
      * intros [Hx (i & Hi & Hfirst)].
        destruct i as [|i]; [injection Hi as <-; by left|].
        right. split.
        -- assert (Listing.id l ≠ Listing.id x)
             by (apply (Hfirst O); [lia|done]).
           rewrite elem_of_union, elem_of_singleton. intros [?|?]; [congruence|done].
        -- exists i. split; [done|]. intros j y Hj Hy.
           apply (Hfirst (S j)); [lia|done].
Qed.

Lemma unique_loop_idemp ls seen :
  unique_loop (unique_loop ls seen []) seen [] = unique_loop ls seen [].
Proof.
  revert seen. induction ls as [|l ls IH]; intros seen; [done|].
  rewrite unique_loop_cons. case_decide as Hl; [apply IH|].
  rewrite unique_loop_cons. rewrite decide_False by done.
  by rewrite IH.
Qed.

(** C5.  The deduplicator keeps the first listing of each id and nothing
    else, in the order of the input: its output is the input with listings
    left out, no id occurs twice in it, every id of the input occurs in it,
    and a listing is in it exactly when it is the first of its id in the
    input.  Running it on its own output changes nothing. *)
Theorem unique_listings_first_wins ls :
  unique_listings ls `sublist_of` ls
  ∧ NoDup (Listing.id <$> unique_listings ls)
  ∧ (∀ x, x ∈ ls → Listing.id x ∈ Listing.id <$> unique_listings ls)
  ∧ (∀ x, x ∈ unique_listings ls ↔ first_occurrence ls x)
  ∧ unique_listings (unique_listings ls) = unique_listings ls.
Proof.
  unfold unique_listings. split; [apply unique_loop_sublist|].
  split; [apply unique_loop_NoDup|]. split; [|split].
  - intros x Hx. destruct (unique_loop_covers ls ∅ x Hx); [set_solver|done].
  - intros x. rewrite unique_loop_first.
    split; [by intros [_ ?]|]. intros ?. split; [apply not_elem_of_empty|done].
  - apply unique_loop_idemp.
Qed.

(** ** Reconciliation store: [get_new_listings] *)

Lemma get_new_loop_spec (db : gmap string row) ls acc :
  get_new_loop db ls acc
  = (db, acc ++ List.filter (λ l, bool_decide (Listing.id l ∉ dom db)) ls).
Proof.
  revert acc. induction ls as [|l ls IH]; intros acc; simpl.
  - by rewrite app_nil_r.
  - rewrite IH. f_equal.
    destruct (db !! Listing.id l) as [r|] eqn:E; simpl.
    + rewrite bool_decide_eq_false_2; [done|].
      intros Hn. apply not_elem_of_dom in Hn. congruence.
    + rewrite bool_decide_eq_true_2 by by apply not_elem_of_dom.
      by rewrite <- app_assoc.
Qed.

(** C4.  [get_new_listings] returns the listings of the batch whose id has
    no row in the store, in the order of the batch, and leaves the store as
    it was. *)
Theorem get_new_listings_spec (db : gmap string row) batch :
  get_new_listings db batch
  = (db, List.filter (λ l, bool_decide (Listing.id l ∉ dom db)) batch).
Proof. unfold get_new_listings. by rewrite get_new_loop_spec. Qed.

(** ** Reconciliation store: [save_listings] *)

Lemma last_cons_cons {A : Type} (a b d : A) (l : list A) :
  List.last (a :: b :: l) d = List.last (b :: l) d.
Proof. done. Qed.

Lemma last_cons_default {A : Type} (a d : A) (l : list A) :
  List.last (a :: l) d = List.last l a.
Proof.
  revert a d. induction l as [|b l IH]; intros a d; [done|].
  by rewrite last_cons_cons, !IH.
Qed.

(** The row of [k] after [save_listings]: untouched when the batch does not
    carry [k]; otherwise the row there was, or else the row inserted for the
    first listing of [k], with the update of the last listing of [k]. *)
Lemma save_listings_lookup (db : gmap string row) batch now k :
  save_listings db batch now !! k
  = match occurrences k batch with
    | [] => db !! k
    | first :: more =>
        Some (updated_row now (List.last more first)
                (default (inserted_row now first) (db !! k)))
    end.
Proof.
  unfold save_listings. revert db.
  induction batch as [|l rest IH]; intros db; [done|].
  simpl. rewrite IH. unfold occurrences. simpl.
  destruct (decide (Listing.id l = k)) as [<-|Hne].
  - rewrite bool_decide_eq_true_2 by done.
    fold (occurrences (Listing.id l) rest).
    assert (upsert now db l !! Listing.id l
            = Some (updated_row now l
                      (default (inserted_row now l) (db !! Listing.id l))))
      as Hup.
    { unfold upsert. destruct (db !! Listing.id l) as [r|] eqn:E;
        by rewrite lookup_insert_eq. }
    rewrite Hup.
    destruct (occurrences (Listing.id l) rest) as [|l1 more]; [done|].
    by rewrite last_cons_default.
  - rewrite bool_decide_eq_false_2 by done.
    fold (occurrences k rest).
    assert (upsert now db l !! k = db !! k) as ->; [|done].
    unfold upsert. destruct (db !! Listing.id l); by rewrite lookup_insert_ne.
Qed.

Lemma occurrences_nil k batch :
  occurrences k batch = [] ↔ k ∉ (Listing.id <$> batch).
Proof.
  unfold occurrences. induction batch as [|l rest IH]; simpl.
  - split; [intros _ ?%elem_of_nil|]; done.
  - rewrite not_elem_of_cons. case_bool_decide as E.
    + split; [done|]. by intros [? _].
    + rewrite IH. split; [by intros ?|by intros [_ ?]].
Qed.

Lemma occurrences_unique batch l :
  NoDup (Listing.id <$> batch) → l ∈ batch →
  occurrences (Listing.id l) batch = [l].
Proof.
  unfold occurrences. induction batch as [|x rest IH]; simpl.
  - by intros _ ?%elem_of_nil.
  - intros [Hx Hnd]%NoDup_cons [->|Hl]%elem_of_cons.
    + rewrite bool_decide_eq_true_2 by done. f_equal.
      apply occurrences_nil, Hx.
    + rewrite bool_decide_eq_false_2; [by apply IH|].
      intros E. apply Hx. rewrite E. by apply list_elem_of_fmap_2.
Qed.




(** * Further properties *)

(** ** More on matching *)

Lemma group_plus_first {R : Type} p (a b : string) g
    (k : string → option string → option R) r :
  a ≠ "" → Str.all p a = true → head_not p b → k b (Some a) = Some r →
  rmatch (Group (Plus p)) (a +:+ b) g k = Some r.
Proof.
  intros Hne Ha Hb Hk. destruct a as [|c a]; [done|].
  simpl in Ha. apply andb_true_iff in Ha as [Hc Ha].
  rewrite str_app_cons. cbn [rmatch]. rewrite Hc.
  apply star_k_first; [done| |done].
  change (String c (a +:+ b)) with (String c a +:+ b).
  by rewrite consumed_app.
Qed.

Lemma group_plus_fail {R : Type} p c (s : string) g
    (k : string → option string → option R) :
  p c = false → rmatch (Group (Plus p)) (String c s) g k = None.
Proof. intros Hc. cbn [rmatch]. by rewrite Hc. Qed.

Lemma chr_step {R : Type} c a (s : string) g
    (k : string → option string → option R) :
  rmatch (Chr c) (String a s) g k = if Ascii.eqb a c then k s g else None.
Proof. reflexivity. Qed.

Lemma match_at_price_rx_cases (s : string) :
  match_at price_rx s
  = or_else
      (rmatch (Chr "$") s None
         (λ s' g', rmatch (Group (Plus digit_or_comma)) s' g'
                     (λ s'' g'', Some (MatchObj (consumed s s'') g''))))
      (rmatch (Group (Plus digit_or_comma)) s None
         (λ s'' g'', Some (MatchObj (consumed s s'') g''))).
Proof. reflexivity. Qed.

(** The price pattern finds the first run of digits of a text without
    commas. *)
Lemma search_price_rx_first_run (pre ds post : string) :
  Str.all (λ c, negb (digit_or_comma c)) pre = true →
  ds ≠ "" → Str.all digit_or_comma ds = true → head_not digit_or_comma post →
  ∃ w, search price_rx (pre +:+ ds +:+ post) = Some (MatchObj w (Some ds)).
Proof.
  intros Hpre Hne Hds Hpost. induction pre as [|c pre IH].
  - rewrite str_app_nil_l. eexists. apply search_head.
    rewrite match_at_price_rx_cases.
    destruct ds as [|d ds]; [done|].
    assert (Ascii.eqb d "$" = false) as Hd.
    { simpl in Hds. apply andb_true_iff in Hds as [Hd _].
      by destruct (Ascii.eqb_spec d "$") as [->|_]. }
    rewrite str_app_cons, chr_step, Hd. cbn [or_else].
    rewrite <- str_app_cons.
    by apply group_plus_first.
  - simpl in Hpre. apply andb_true_iff in Hpre as [Hc Hpre].
    apply negb_true_iff in Hc.
    destruct (IH Hpre) as [w Hw].
    rewrite str_app_cons. cbn [search]. rewrite match_at_price_rx_cases.
    rewrite (group_plus_fail _ _ _ _ _ Hc), chr_step.
    destruct (Ascii.eqb c "$") eqn:Hdollar.
    + destruct pre as [|c' pre].
      * rewrite str_app_nil_l.
        erewrite group_plus_first; [|done|done|done|reflexivity].
        cbn [or_else]. by eexists.
      * simpl in Hpre. apply andb_true_iff in Hpre as [Hc' _].
        apply negb_true_iff in Hc'.
        rewrite str_app_cons, (group_plus_fail _ _ _ _ _ Hc').
        cbn [or_else]. by exists w.
    + cbn [or_else]. by exists w.
Qed.



Lemma str_all_and p q (s : string) :
  Str.all p s = true → Str.all q s = true →
  Str.all (λ c, p c && q c) s = true.
Proof.
  induction s as [|a s IH]; [done|]. simpl.
  intros [-> Hp]%andb_true_iff [-> Hq]%andb_true_iff. simpl. auto.
Qed.

Lemma not_digit_or_comma (s : string) :
  Str.all not_digit s = true →
  Str.all (λ c, negb (Ascii.eqb c ",")) s = true →
  Str.all (λ c, negb (digit_or_comma c)) s = true.
Proof.
  intros H1 H2. eapply str_all_impl, (str_all_and _ _ _ H1 H2).
  intros c [Hd Hc]%andb_true_iff. unfold digit_or_comma, not_digit in *.
  apply negb_true_iff in Hd, Hc. by rewrite Hd, Hc.
Qed.

Lemma head_not_digit_or_comma (s : string) :
  head_not Str.is_digit s →
  Str.all (λ c, negb (Ascii.eqb c ",")) s = true →
  head_not digit_or_comma s.
Proof.
  destruct s as [|c s]; [done|]. simpl.
  intros Hd [Hc _]%andb_true_iff. apply negb_true_iff in Hc.
  unfold digit_or_comma. by rewrite Hd, Hc.
Qed.

Lemma digit_val_nonneg c : Str.is_digit c = true → 0 ≤ Str.digit_val c ≤ 9.
Proof.
  unfold Str.is_digit, Str.digit_val.
  intros [H1 H2]%andb_true_iff. apply N.leb_le in H1, H2. lia.
Qed.

Lemma digits_val_nonneg acc (s : string) :
  0 ≤ acc → Str.all Str.is_digit s = true → 0 ≤ Str.digits_val acc s.
Proof.
  revert acc. induction s as [|c s IH]; intros acc Hacc; [done|]. simpl.
  intros [Hc Hs]%andb_true_iff. apply IH; [|done].
  pose proof (digit_val_nonneg c Hc). lia.
Qed.

(** A text in which, commas apart, the first run of digits is [ds]. *)
Lemma parse_price_digit_run (s pre ds post : string) :
  Str.remove_char "," s = pre +:+ ds +:+ post →
  Str.all not_digit pre = true →
  ds ≠ "" → Str.all Str.is_digit ds = true →
  head_not Str.is_digit post →
  parse_price (Some s) = Ok (Some (Str.digits_val 0 ds)).
Proof.
  intros E Hpre Hne Hds Hpost.
  pose proof (remove_char_absent "," s) as Hc.
  rewrite E, !str_all_app in Hc.
  apply andb_true_iff in Hc as [Hc1 Hc]. apply andb_true_iff in Hc as [Hc2 Hc3].
  destruct (search_price_rx_first_run pre ds post) as [w Hw].
  { by apply not_digit_or_comma. }
  { done. }
  { by apply digit_is_digit_or_comma. }
  { by apply head_not_digit_or_comma. }
  unfold parse_price. destruct s as [|c s].
  { simpl in E. destruct pre; [destruct ds|]; done. }
  cbn [Str.is_empty]. rewrite E, Hw. unfold group1_str. cbn [group1].
  step_bind. rewrite remove_char_id by done.
  by rewrite py_int_digits.
Qed.




(** ** [float] *)



Lemma float_scan_nonneg (s : string) mant ndig dot m n d :
  0 ≤ mant → float_scan s mant ndig dot = Some (m, n, d) → 0 ≤ m.
Proof.
  revert mant ndig dot. induction s as [|c s IH]; intros mant ndig dot Hm; simpl.
  - by intros [= <- _ _].
  - destruct (Str.is_digit c) eqn:Hd.
    + apply IH. pose proof (digit_val_nonneg c Hd). lia.
    + destruct (Ascii.eqb c "."); [|done]. destruct dot; [done|]. by apply IH.
Qed.

Lemma py_float_nonneg (g : string) x : py_float g = Ok x → (0 <= x)%Q.
Proof.
  unfold py_float.
  destruct (float_scan g 0 0 None) as [[[m [|n]] d]|] eqn:E; try done.
  intros [= <-]. apply float_scan_nonneg in E; [|done].
  rewrite Qred_correct. unfold Qle. simpl. lia.
Qed.

(** ** Substrings *)

Lemma starts_with_app (n b : string) : Str.starts_with n (n +:+ b) = true.
Proof.
  induction n as [|c n IH]; [by destruct b|].
  rewrite str_app_cons. simpl. by rewrite Ascii.eqb_refl, IH.
Qed.

Lemma starts_with_inv (n h : string) :
  Str.starts_with n h = true → ∃ b, h = n +:+ b.
Proof.
  revert h. induction n as [|c n IH]; intros h; [by exists h|].
  destruct h as [|a h]; [done|]. simpl.
  intros [Hc Hn]%andb_true_iff. apply Ascii.eqb_eq in Hc as ->.
  destruct (IH h Hn) as [b ->]. by exists b.
Qed.

Lemma contains_iff (n h : string) :
  Str.contains n h = true ↔ ∃ a b, h = a +:+ n +:+ b.
Proof.
  split.
  - induction h as [|c h IH]; simpl.
    + rewrite orb_false_r. intros [b ->]%starts_with_inv. by exists "", b.
    + intros [H|H]%orb_true_iff.
      * apply starts_with_inv in H as [b ->]. by exists "", b.
      * destruct (IH H) as (a & b & ->). by exists (String c a), b.
  - intros (a & b & ->). induction a as [|c a IH].
    + rewrite str_app_nil_l. destruct (n +:+ b) eqn:E; simpl;
        rewrite <- E, starts_with_app; done.
    + rewrite str_app_cons. simpl. by rewrite IH, orb_true_r.
Qed.

Lemma lower_char_idemp c : Str.lower_char (Str.lower_char c) = Str.lower_char c.
Proof.
  destruct c as [[] [] [] [] [] [] [] []]; reflexivity.
Qed.

Lemma lower_idemp (s : string) : Str.lower (Str.lower s) = Str.lower s.
Proof. induction s as [|c s IH]; [done|]. simpl. by rewrite lower_char_idemp, IH. Qed.

Lemma lower_app (a b : string) :
  Str.lower (a +:+ b) = Str.lower a +:+ Str.lower b.
Proof. induction a as [|c a IH]; [done|]. rewrite str_app_cons. simpl. by rewrite IH. Qed.

(** ** What a pattern reads *)





(** ** [parse_beds_baths] *)

Lemma bath_group (text : string) m :
  search bath_rx (Str.lower text) = Some m →
  ∃ g, group1 m = Some g ∧ g ≠ "" ∧ Str.all digit_or_dot g = true.
Proof.
  intros (x & y & _ & Hm)%search_inv.
  apply match_at_group_plus_inv in Hm as (a & Hne & Ha & Hg); [|done].
  by exists a.
Qed.







Lemma parse_beds_baths_nonneg (text : string) beds baths :
  parse_beds_baths text = Ok (beds, baths) →
  (∀ b, beds = Some b → 0 ≤ b) ∧ (∀ x, baths = Some x → (0 <= x)%Q).
Proof.
  unfold parse_beds_baths.
  destruct (search bed_rx (Str.lower text)) as [m|] eqn:Hbed.
  - pose proof Hbed as (x & y & _ & Hm)%search_inv.
    apply match_at_group_plus_inv in Hm as (a & Hne & Ha & Hg); [|done].
    rewrite Hg. step_bind. rewrite py_int_digits by done. step_bind.
    destruct (search bath_rx (Str.lower text)) as [m'|] eqn:Hbath.
    + destruct (bath_group text m' Hbath) as (g & Hg' & _ & _).
      rewrite Hg'. step_bind.
      destruct (py_float g) as [v|] eqn:Hf; step_bind; [|done].
      intros [= <- <-]. split.
      * intros b [= <-]. by apply digits_val_nonneg.
      * intros x' [= <-]. by apply py_float_nonneg in Hf.
    + intros [= <- <-]. split; [|done].
      intros b [= <-]. by apply digits_val_nonneg.
  - assert (∀ b0, (if Str.contains "studio" (Str.lower text)
                   then Ok (Some 0) else Ok None) = Ok b0
                  → ∀ b, b0 = Some b → 0 ≤ b) as Hstudio.
    { intros b0. destruct (Str.contains _ _); intros [= <-] b [=]; lia. }
    destruct (if Str.contains "studio" (Str.lower text)
              then Ok (Some 0) else Ok None) as [b0|] eqn:E; [|by destruct (Str.contains _ _)].
    specialize (Hstudio b0 eq_refl). step_bind.
    destruct (search bath_rx (Str.lower text)) as [m'|] eqn:Hbath.
    + destruct (bath_group text m' Hbath) as (g & Hg' & _ & _).
      rewrite Hg'. step_bind.
      destruct (py_float g) as [v|] eqn:Hf; step_bind; [|done].
      intros [= <- <-]. split; [done|].
      intros x' [= <-]. by apply py_float_nonneg in Hf.
    + intros [= <- <-]. by split.
Qed.

(** ** The outcomes of a card *)

Lemma parse_price_nonneg price_str v n :
  parse_price price_str = Ok v → v = Some n → 0 ≤ n.
Proof.
  destruct price_str as [s|]; [|by intros [= <-]]. unfold parse_price.
  destruct (Str.is_empty s); [by intros [= <-]|].
  destruct (search price_rx _) as [m|] eqn:Hm; [|by intros [= <-]].
  apply search_inv in Hm as (x & y & Hxy & Hm).
  apply match_at_price_rx_inv in Hm as (x' & a & y' & -> & Hne & Ha & Hg).
  pose proof (remove_char_absent "," s) as Hs.
  rewrite Hxy, !str_all_app in Hs.
  apply andb_true_iff in Hs as [_ Hs]. apply andb_true_iff in Hs as [_ Hs].
  apply andb_true_iff in Hs as [Hs _].
  unfold group1_str. rewrite Hg. step_bind.
  rewrite remove_char_id by done.
  pose proof (digits_of_commaless a Ha Hs) as Hd.
  rewrite py_int_digits by done. step_bind.
  intros [= <-] [= <-]. by apply digits_val_nonneg.
Qed.

Lemma scrape_price_nonneg e v n : scrape_price e = Ok v → v = Some n → 0 ≤ n.
Proof.
  unfold scrape_price.
  destruct (match elem_price e with
            | Some t => parse_price (Some t)
            | None => Ok None
            end) as [p|] eqn:Hp; [|done].
  step_bind.
  assert (∀ n, p = Some n → 0 ≤ n) as Hpn.
  { intros k Hk. destruct (elem_price e); [|congruence].
    by eapply parse_price_nonneg. }
  destruct (falsy p); [|intros [= <-]; apply Hpn].
  destruct (search dollar_rx _); [apply parse_price_nonneg|].
  intros [= <-]. apply Hpn.
Qed.

Lemma scrape_net_price_nonneg e price v n :
  (∀ k, price = Some k → 0 ≤ k) →
  scrape_net_price e price = Ok v → v = Some n → 0 ≤ n.
Proof.
  intros Hp. unfold scrape_net_price.
  destruct (search net_rx _) as [m|].
  - destruct (group1 m); apply parse_price_nonneg.
  - intros [= <-]. apply Hp.
Qed.

Lemma sqft_group (text : string) m :
  search sqft_rx text = Some m →
  ∃ g, group1 m = Some g ∧ g ≠ "" ∧ Str.all digit_or_comma g = true.
Proof.
  intros (x & y & _ & Hm)%search_inv.
  apply match_at_group_plus_inv in Hm as (a & Hne & Ha & Hg); [|done].
  by exists a.
Qed.

Lemma remove_commas_empty (g : string) :
  Str.all digit_or_comma g = true →
  Str.is_empty (Str.remove_char "," g) = true ↔ Str.all not_digit g = true.
Proof.
  induction g as [|c g IH]; [done|]. simpl.
  intros [Hc Hg]%andb_true_iff. unfold not_digit at 1.
  destruct (Ascii.eqb_spec c ",") as [->|Hne].
  - simpl. by apply IH.
  - unfold digit_or_comma in Hc.
    rewrite (proj2 (Ascii.eqb_neq _ _) Hne), orb_false_r in Hc.
    rewrite Hc. simpl. done.
Qed.

Lemma scrape_sqft_outcome e :
  match scrape_sqft e with
  | Ok v => ¬ bad_sqft (elem_text e) ∧ ∀ n, v = Some n → 0 ≤ n
  | Raise ex => ex = ValueError ∧ bad_sqft (elem_text e)
  end.
Proof.
  unfold scrape_sqft, bad_sqft.
  destruct (search sqft_rx _) as [m|] eqn:Hs.
  - destruct (sqft_group _ m Hs) as (g & Hg & Hne & Hall).
    unfold group1_str. rewrite Hg. step_bind.
    pose proof (remove_char_digits g Hall) as Hd.
    pose proof (remove_commas_empty g Hall) as He.
    unfold py_int. rewrite Hd.
    destruct (Str.is_empty (Str.remove_char "," g)) eqn:E; step_bind.
    + split; [done|]. exists m, g. repeat split; try done. by apply He.
    + split.
      * intros (m' & g' & [= <-] & Hg' & Hnd). rewrite Hg in Hg'.
        injection Hg' as <-. apply He in Hnd. congruence.
      * intros n [= <-]. by apply digits_val_nonneg.
  - split; [|done]. by intros (m' & g' & [=] & _).
Qed.

(** The listing a card yields, field by field. *)
Lemma scrape_element_Some_inv e l :
  scrape_element e = Ok (Some l) →
  ∃ url price beds baths net_price sqft,
    elem_href e = Some url ∧ Str.is_empty url = false
    ∧ scrape_price e = Ok price
    ∧ parse_beds_baths (elem_text e) = Ok (beds, baths)
    ∧ scrape_net_price e price = Ok net_price
    ∧ scrape_sqft e = Ok sqft
    ∧ l = {|
        Listing.url := url;
        Listing.id := generate_listing_id url;
        Listing.address := Str.strip <$> elem_address e;
        Listing.price := price;
        Listing.beds := beds;
        Listing.baths := baths;
        Listing.net_price := net_price;
        Listing.is_no_fee := Str.contains "no fee" (Str.lower (elem_text e));
        Listing.has_laundry :=
          check_has_laundry (elem_text e) || check_has_laundry (elem_html e);
        Listing.sqft := sqft;
        Listing.neighborhood := scrape_neighborhood url;
        Listing.raw_text := Str.take 500 (elem_text e)
      |}.
Proof.
  unfold scrape_element. destruct (elem_href e) as [url|]; [|done].
  destruct (Str.is_empty url) eqn:Hne; [done|].
  destruct (scrape_price e) as [price|] eqn:Hp; step_bind; [|done].
  destruct (parse_beds_baths (elem_text e)) as [[beds baths]|] eqn:Hb;
    step_bind; [|done].
  destruct (scrape_net_price e price) as [net|] eqn:Hn; step_bind; [|done].
  destruct (scrape_sqft e) as [sqft|] eqn:Hs; step_bind; [|done].
  intros [= <-]. by exists url, price, beds, baths, net, sqft.
Qed.

(** X4.  The loop of [scrape_listings] passes over a card without an
    exception exactly when the card yields no URL, or an empty one. *)
Theorem scrape_element_skips_iff e :
  scrape_element e = Ok None
  ↔ elem_href e = None ∨ elem_href e = Some "".
Proof.
  unfold scrape_element. split.
  - destruct (elem_href e) as [url|]; [|by left].
    destruct url as [|c url]; [by right|]. cbn [Str.is_empty].
    destruct (scrape_price _) as [price|]; step_bind; [|done].
    destruct (parse_beds_baths _) as [[beds baths]|]; step_bind; [|done].
    destruct (scrape_net_price _ _) as [net|]; step_bind; [|done].
    destruct (scrape_sqft _) as [sqft|]; step_bind; done.
  - by intros [->| ->].
Qed.


(** X6.  The price, net price, bed count, bath count and square footage
    of a scraped listing are never negative. *)
Theorem scraped_numbers_nonneg e l :
  scrape_element e = Ok (Some l) →
  (∀ n, Listing.price l = Some n → 0 ≤ n)
  ∧ (∀ n, Listing.net_price l = Some n → 0 ≤ n)
  ∧ (∀ n, Listing.beds l = Some n → 0 ≤ n)
  ∧ (∀ x, Listing.baths l = Some x → (0 <= x)%Q)
  ∧ (∀ n, Listing.sqft l = Some n → 0 ≤ n).
Proof.
  intros (url & price & beds & baths & net & sqft & _ & _ & Hp & Hb & Hn
          & Hs & ->)%scrape_element_Some_inv.
  cbn [Listing.price Listing.net_price Listing.beds Listing.baths Listing.sqft].
  assert (∀ n, price = Some n → 0 ≤ n) as Hprice
    by (intros n; by apply (scrape_price_nonneg e)).
  destruct (parse_beds_baths_nonneg _ _ _ Hb) as [Hbeds Hbaths].
  pose proof (scrape_sqft_outcome e) as Hsq. rewrite Hs in Hsq.
  repeat split; try done.
  - intros n. by apply (scrape_net_price_nonneg e price).
  - apply Hsq.
Qed.

Lemma scraped_numbers_nonneg_witness :
  ∃ l, scrape_element (text_card "2 beds, 1.5 baths, $3,000, 900 sq ft")
       = Ok (Some l)
       ∧ (∀ n, Listing.price l = Some n → 0 ≤ n)
       ∧ (∀ x, Listing.baths l = Some x → (0 <= x)%Q).
Proof.
  eexists. split; [vm_compute; reflexivity|].
  pose proof (scraped_numbers_nonneg
                (text_card "2 beds, 1.5 baths, $3,000, 900 sq ft") _ eq_refl)
    as (H1 & _ & _ & H4 & _).
  exact (conj H1 H4).
Defined.

Lemma check_has_laundry_iff (text : string) :
  check_has_laundry text = true
  ↔ ∃ kw, kw ∈ laundry_keywords ∧ mentions kw text.
Proof.
  unfold check_has_laundry, mentions. rewrite existsb_exists. split.
  - intros (kw & Hin & Hc). exists kw. split; [by apply list_elem_of_In|].
    by apply contains_iff.
  - intros (kw & Hin & Hc). exists kw. split; [by apply list_elem_of_In|].
    by apply contains_iff.
Qed.

(** X7.  A scraped listing is flagged as having laundry exactly when one
    of the laundry keywords occurs, in any case of the letters, in the
    visible text of the card or in its inner HTML. *)
Theorem has_laundry_iff e l :
  scrape_element e = Ok (Some l) →
  Listing.has_laundry l = true
  ↔ ∃ kw, kw ∈ laundry_keywords
          ∧ (mentions kw (elem_text e) ∨ mentions kw (elem_html e)).
Proof.
  intros (url & price & beds & baths & net & sqft & _ & _ & _ & _ & _
          & _ & ->)%scrape_element_Some_inv.
  cbn [Listing.has_laundry]. rewrite orb_true_iff, !check_has_laundry_iff.
  split.
  - intros [(kw & ? & ?)|(kw & ? & ?)]; exists kw; auto.
  - intros (kw & ? & [?|?]); [left|right]; by exists kw.
Qed.

Lemma has_laundry_iff_witness :
  ∃ l, scrape_element (text_card "2 beds, DISHWASHER, $3,000") = Ok (Some l)
       ∧ (Listing.has_laundry l = true
          ↔ ∃ kw, kw ∈ laundry_keywords
                  ∧ (mentions kw "2 beds, DISHWASHER, $3,000" ∨ mentions kw "")).
Proof.
  eexists. split; [vm_compute; reflexivity|].
  apply (has_laundry_iff (text_card "2 beds, DISHWASHER, $3,000")).
  vm_compute. reflexivity.
Defined.

(** ** Lists of cards *)

Lemma scrape_elements_omap es acc :
  scrape_elements es acc = acc ++ omap scraped es.
Proof.
  revert acc. induction es as [|e es IH]; intros acc.
  - simpl. by rewrite app_nil_r.
  - change (omap scraped (e :: es))
      with (match scraped e with
            | Some l => l :: omap scraped es
            | None => omap scraped es
            end).
    cbn [scrape_elements]. unfold scraped at 1.
    destruct (scrape_element e) as [[l|]|]; rewrite IH; try done.
    by rewrite <- app_assoc.
Qed.

Lemma omap_length_le {A B : Type} (f : A → option B) (l : list A) :
  (length (omap f l) ≤ length l)%nat.
Proof.
  induction l as [|x l IH]; [done|].
  change (omap f (x :: l))
    with (match f x with Some y => y :: omap f l | None => omap f l end).
  destruct (f x); simpl length; lia.
Qed.

Lemma scrape_listings_omap es : scrape_listings es = omap scraped es.
Proof. unfold scrape_listings. by rewrite scrape_elements_omap. Qed.

(** X8.  [scrape_listings] treats the cards one by one and in order: the
    listings of two lists of cards put together are the listings of the
    first followed by those of the second; there are never more listings
    than cards; a card contributes nothing exactly when it is passed over
    or raises; and a listing is returned exactly when some card yields
    it. *)
Theorem scrape_listings_card_by_card es1 es2 :
  scrape_listings (es1 ++ es2) = scrape_listings es1 ++ scrape_listings es2
  ∧ (length (scrape_listings es1) ≤ length es1)%nat
  ∧ (∀ e, scrape_listings [e] = [] ↔ ∀ l, scrape_element e ≠ Ok (Some l))
  ∧ (∀ l, l ∈ scrape_listings es1
          ↔ ∃ e, e ∈ es1 ∧ scrape_element e = Ok (Some l)).
Proof.
  rewrite !scrape_listings_omap. split; [apply omap_app|].
  split; [apply omap_length_le|]. split.
  - intros e. rewrite scrape_listings_omap. simpl. unfold scraped.
    destruct (scrape_element e) as [[l|]|]; split; try done.
    intros H. by destruct (H l).
  - intros l. rewrite list_elem_of_omap. unfold scraped. split.
    + intros (e & He & Hs). exists e. split; [done|].
      destruct (scrape_element e) as [[l'|]|]; congruence.
    + intros (e & He & Hs). exists e. split; [done|]. by rewrite Hs.
Qed.

(** ** More on [generate_listing_id] *)

(** A run of digits cannot hold the slash of a text it starts. *)
Lemma digits_then_slash (e x ds rest : string) :
  Str.all Str.is_digit ds = true →
  e +:+ String "/" x = ds +:+ rest →
  ∃ g, e = ds +:+ g ∧ rest = g +:+ String "/" x.
Proof.
  revert e. induction ds as [|d ds IH]; intros e Hds E.
  - exists e. by rewrite !str_app_nil_l in *.
  - simpl in Hds. apply andb_true_iff in Hds as [Hd Hds].
    destruct e as [|c e].
    + rewrite str_app_nil_l, str_app_cons in E. injection E as <- _. done.
    + rewrite !str_app_cons in E. injection E as -> E.
      destruct (IH e Hds E) as (g & -> & ->). by exists g.
Qed.

Lemma search_id_rx_prefix (prefix ds rest : string) :
  no_query prefix → ds ≠ "" → Str.all Str.is_digit ds = true →
  (rest = "" ∨ ∃ q, rest = String "?" q) →
  ∃ w, search id_rx (prefix +:+ "/" +:+ ds +:+ rest)
       = Some (MatchObj w (Some ds)).
Proof.
  intros Hq Hne Hds Hrest.
  destruct (match_at_id_rx_segment ds rest Hne Hds Hrest) as [w Hw].
  exists w. rewrite search_skip; [by apply search_head|].
  intros p1 p2 -> Hp2.
  destruct (match_at id_rx (p2 +:+ "/" +:+ ds +:+ rest)) as [m|] eqn:Hm;
    [exfalso|done].
  apply match_at_id_rx_inv in Hm
    as (ds' & rest' & E & Hne' & Hds' & Hrest' & _).
  destruct p2 as [|c p2]; [done|].
  rewrite !str_app_cons, !str_app_nil_l in E. injection E as -> E.
  apply digits_then_slash in E as (g & -> & ->); [|done].
  unfold no_query in Hq. rewrite str_all_app in Hq. simpl in Hq.
  rewrite str_all_app in Hq.
  destruct Hrest' as [Hr|[Hr|[q Hr]]].
  - by destruct g.
  - destruct g as [|c [|c' g]]; done.
  - destruct g as [|c g]; [done|]. rewrite str_app_cons in Hr.
    injection Hr as -> _. simpl in Hq. by rewrite !andb_false_r in Hq.
Qed.

(** X9.  The id keeps only the number of the URL: a URL that ends in a
    slash and the digits [ds], and a URL that continues after the same
    digits with a query string, get the same id "se_" followed by [ds],
    whatever comes before the slash, provided no question mark does. *)
Theorem generate_listing_id_number_only (p1 p2 ds q : string) :
  no_query p1 → no_query p2 → ds ≠ "" → Str.all Str.is_digit ds = true →
  generate_listing_id (p1 +:+ "/" +:+ ds) = "se_" +:+ ds
  ∧ generate_listing_id (p2 +:+ "/" +:+ ds +:+ "?" +:+ q) = "se_" +:+ ds.
Proof.
  intros H1 H2 Hne Hds. unfold generate_listing_id. split.
  - destruct (search_id_rx_prefix p1 ds "" H1 Hne Hds) as [w Hw]; [by left|].
    rewrite str_app_nil_r in Hw. by rewrite Hw.
  - destruct (search_id_rx_prefix p2 ds (String "?" q) H2 Hne Hds) as [w Hw];
      [right; by exists q|].
    change ("?" +:+ q) with (String "?" q). by rewrite Hw.
Qed.

Lemma generate_listing_id_number_only_witness :
  generate_listing_id "https://streeteasy.com/building/the-alexander/123456"
  = "se_123456"
  ∧ generate_listing_id
      "https://streeteasy.com/rental/123456?featured=1&utm_source=mail"
    = "se_123456".
Proof.
  exact (generate_listing_id_number_only
           "https://streeteasy.com/building/the-alexander"
           "https://streeteasy.com/rental" "123456"
           "featured=1&utm_source=mail"
           eq_refl eq_refl ltac:(discriminate) eq_refl).
Defined.



(** ** White space *)

Lemma lstrip_head (s : string) : head_not Str.is_space (Str.lstrip s).
Proof.
  induction s as [|c s IH]; [done|]. simpl.
  destruct (Str.is_space c) eqn:E; [done|]. simpl. done.
Qed.

Lemma rstrip_head (s : string) :
  head_not Str.is_space s → head_not Str.is_space (Str.rstrip s).
Proof.
  destruct s as [|c s]; [done|]. simpl. intros Hc.
  destruct (Str.rstrip s); [by rewrite Hc|done].
Qed.

Lemma rstrip_last (s a : string) c :
  Str.rstrip s = a +:+ String c "" → Str.is_space c = false.
Proof.
  revert a. induction s as [|x s IH]; intros a; simpl.
  - by destruct a.
  - destruct (Str.rstrip s) as [|y t] eqn:E.
    + destruct (Str.is_space x) eqn:Hx; [by destruct a|].
      destruct a as [|? [|? ?]]; [|done..]. by intros [= <-].
    + destruct a as [|z a]; [done|]. rewrite str_app_cons.
      intros [= _ H]. by apply (IH a).
Qed.

Lemma str_take_drop n (s : string) : s = Str.take n s +:+ Str.drop n s.
Proof.
  revert s. induction n as [|n IH]; intros [|c s]; try done.
  simpl. rewrite str_app_cons. by rewrite <- IH.
Qed.

Lemma str_take_all n (s : string) :
  (String.length s ≤ n)%nat → Str.take n s = s.
Proof.
  revert s. induction n as [|n IH]; intros [|c s]; simpl; try done; [lia|].
  intros H. rewrite IH; [done|lia].
Qed.

(** X11.  What every scraped listing carries: the URL of the card, which
    is not empty; the id generated from that URL; a raw text that is a
    prefix of the visible text, and the whole of it when that has at most
    500 bytes; one of the three neighbourhood names; and an address, when
    there is one, without white space at either end. *)
Theorem scraped_listing_shape e l :
  scrape_element e = Ok (Some l) →
  elem_href e = Some (Listing.url l) ∧ Listing.url l ≠ ""
  ∧ Listing.id l = generate_listing_id (Listing.url l)
  ∧ (∃ rest, elem_text e = Listing.raw_text l +:+ rest)
  ∧ ((String.length (elem_text e) ≤ 500)%nat →
     Listing.raw_text l = elem_text e)
  ∧ Listing.neighborhood l ∈ ["Crown Heights"; "Prospect Heights"; "Brooklyn"]
  ∧ (∀ a, Listing.address l = Some a →
       head_not Str.is_space a
       ∧ ∀ b c, a = b +:+ String c "" → Str.is_space c = false).
Proof.
  intros (url & price & beds & baths & net & sqft & Hurl & Hne & _ & _ & _
          & _ & ->)%scrape_element_Some_inv.
  cbn [Listing.url Listing.id Listing.raw_text Listing.neighborhood
       Listing.address].
  split; [done|]. split; [by destruct url|]. split; [done|].
  split; [eexists; apply str_take_drop|].
  split; [apply str_take_all|]. split.
  - unfold scrape_neighborhood.
    destruct (Str.contains _ _); [set_solver|].
    destruct (Str.contains _ _); set_solver.
  - intros a. destruct (elem_address e) as [t|]; [|done].
    intros [= <-]. unfold Str.strip. split.
    + apply rstrip_head, lstrip_head.
    + intros b c. apply rstrip_last.
Qed.

Lemma scraped_listing_shape_witness :
  ∃ l, scrape_element (scenario_element "https://streeteasy.com" ""
                         (Some "  12 Main St ") None) = Ok (Some l)
       ∧ Listing.id l = generate_listing_id (Listing.url l)
       ∧ Listing.url l ≠ "".
Proof.
  eexists. split; [vm_compute; reflexivity|].
  pose proof (scraped_listing_shape
                (scenario_element "https://streeteasy.com" ""
                   (Some "  12 Main St ") None) _ eq_refl) as H.
  split; apply H.
Defined.

(** ** Filter and deduplicator together *)

Lemma list_filter_mono {A : Type} (f g : A → bool) (l : list A) :
  (∀ x, f x = true → g x = true) →
  List.filter f l `sublist_of` List.filter g l.
Proof.
  intros Hfg. induction l as [|x l IH]; simpl; [constructor|].
  destruct (f x) eqn:Hf.
  - rewrite (Hfg x Hf). by constructor.
  - destruct (g x); [by constructor|done].
Qed.

Lemma list_filter_idemp {A : Type} (f : A → bool) (l : list A) :
  List.filter f (List.filter f l) = List.filter f l.
Proof.
  induction l as [|x l IH]; simpl; [done|].
  destruct (f x) eqn:Hf; simpl; [|done]. by rewrite Hf, IH.
Qed.

(** X12.  [filter_listings] decides listing by listing: filtering two
    lists put together gives the two filtered lists put together,
    filtering twice is filtering once, and the result is never longer than
    the input. *)
Theorem filter_listings_composes ls1 ls2 cfg :
  filter_listings (ls1 ++ ls2) cfg
  = filter_listings ls1 cfg ++ filter_listings ls2 cfg
  ∧ filter_listings (filter_listings ls1 cfg) cfg = filter_listings ls1 cfg
  ∧ (length (filter_listings ls1 cfg) ≤ length ls1)%nat.
Proof.
  rewrite !filter_listings_filter. split; [apply List.filter_app|].
  split; [apply list_filter_idemp|].
  apply sublist_length, list_filter_sublist.
Qed.

Lemma criteria_keep_widens cfg cfg' l :
  widens cfg cfg' → criteria_keep cfg l → criteria_keep cfg' l.
Proof.
  intros (Hp & Hb1 & Hb2 & Hx) (Hprice & Hbeds & Hbaths).
  split; [|split].
  - intros v Hv. specialize (Hprice v Hv). lia.
  - intros b Hb. specialize (Hbeds b Hb). lia.
  - intros x Hx'. specialize (Hbaths x Hx').
    eapply Qle_trans; [|exact Hbaths].
    unfold Qle. simpl. lia.
Qed.

(** X13.  Criteria that ask for no more (a price limit at least as high,
    a bed range at least as wide, a bath minimum at most as high) keep
    every listing the stricter criteria keep, in the same order. *)
Theorem filter_listings_widens ls cfg cfg' :
  widens cfg cfg' →
  filter_listings ls cfg `sublist_of` filter_listings ls cfg'.
Proof.
  intros Hw. rewrite !filter_listings_filter. apply list_filter_mono.
  intros l. rewrite !keep_true_iff. by apply criteria_keep_widens.
Qed.

Lemma filter_listings_widens_witness :
  filter_listings sample_batch SEARCH_CONFIG
  `sublist_of` filter_listings sample_batch
      {| min_beds := 1; max_beds := 5; min_baths := 1; max_price := 5000 |}.
Proof.
  apply filter_listings_widens. unfold widens. simpl. lia.
Defined.

Lemma unique_loop_id ls seen :
  NoDup (Listing.id <$> ls) → (∀ l, l ∈ ls → Listing.id l ∉ seen) →
  unique_loop ls seen [] = ls.
Proof.
  revert seen. induction ls as [|x ls IH]; intros seen Hnd Hseen; [done|].
  rewrite fmap_cons in Hnd. apply NoDup_cons in Hnd as [Hx Hnd].
  rewrite unique_loop_cons.
  rewrite decide_False by (apply Hseen; by left).
  f_equal. apply IH; [done|]. intros l Hl.
  rewrite elem_of_union, elem_of_singleton. intros [E|Hs].
  - apply Hx. rewrite <- E. by apply list_elem_of_fmap_2.
  - apply (Hseen l); [by right|done].
Qed.

(** X14.  The deduplicator of [main] returns its input unchanged exactly
    when no id occurs twice in it. *)
Theorem unique_listings_fixed_iff ls :
  unique_listings ls = ls ↔ NoDup (Listing.id <$> ls).
Proof.
  unfold unique_listings. split.
  - intros E. rewrite <- E. apply unique_loop_NoDup.
  - intros Hnd. apply unique_loop_id; [done|].
    intros l _. apply not_elem_of_empty.
Qed.

(** X15.  Deduplication followed by the filter, as [main] chains them:
    a listing comes out exactly when it is the first of its id among the
    scraped listings and is within the criteria, and no two listings that
    come out share an id.  A duplicate is therefore never kept in place of
    a first sighting that the filter rejects. *)
Theorem filtered_unique_listings ls cfg :
  (∀ l, l ∈ filter_listings (unique_listings ls) cfg
        ↔ first_occurrence ls l ∧ criteria_keep cfg l)
  ∧ NoDup (Listing.id <$> filter_listings (unique_listings ls) cfg).
Proof.
  split.
  - intros l. rewrite elem_of_filter_listings, keep_true_iff.
    unfold unique_listings. rewrite unique_loop_first.
    split; [by intros [[_ ?] ?]|]. intros [? ?].
    split; [|done]. split; [apply not_elem_of_empty|done].
  - apply (sublist_NoDup _ (Listing.id <$> unique_listings ls));
      [apply (unique_loop_NoDup ls ∅)|].
    apply fmap_sublist. rewrite filter_listings_filter.
    apply list_filter_sublist.
Qed.

(** ** The store across calls *)




(** X17.  When every row has [first_seen] no later than [last_seen] and
    [last_seen] no later than some time [before], a save at a time [now]
    that is not earlier than [before] leaves every row with [first_seen]
    no later than [last_seen] and [last_seen] no later than [now]. *)
Theorem save_listings_times_in_order (db : gmap string row) batch before now :
  times_in_order db before → before ≤ now →
  times_in_order (save_listings db batch now) now.
Proof.
  intros Hdb Hle k r. rewrite save_listings_lookup.
  destruct (occurrences k batch) as [|first more].
  - intros Hk. specialize (Hdb k r Hk). lia.
  - intros [= <-]. simpl. split; [|lia].
    destruct (db !! k) as [r|] eqn:Hk; simpl; [|lia].
    specialize (Hdb k r Hk). lia.
Qed.

Lemma save_listings_times_in_order_witness :
  times_in_order (save_listings sample_store sample_batch 10) 10.
Proof.
  apply (save_listings_times_in_order sample_store sample_batch 5 10); [|lia].
  intros k r. unfold sample_store. intros H.
  apply lookup_singleton_Some in H as [_ <-]. simpl. lia.
Defined.

Lemma occurrences_perm k batch batch' :
  batch ≡ₚ batch' → occurrences k batch ≡ₚ occurrences k batch'.
Proof.
  unfold occurrences. induction 1 as [|x l l' _ IH|x y l|l l' l'' _ IH1 _ IH2];
    simpl.
  - done.
  - destruct (bool_decide _); [by constructor|done].
  - destruct (bool_decide _), (bool_decide _); try done. constructor.
  - by etrans.
Qed.

Lemma occurrences_at_most_one k batch :
  NoDup (Listing.id <$> batch) →
  occurrences k batch = [] ∨ ∃ l, occurrences k batch = [l].
Proof.
  intros Hnd. destruct (decide (k ∈ (Listing.id <$> batch))) as [Hk|Hk].
  - right. apply list_elem_of_fmap in Hk as (l & -> & Hl).
    exists l. by apply occurrences_unique.
  - left. by apply occurrences_nil.
Qed.

(** X18.  For a batch in which no id occurs twice, the order of the
    batch does not matter to [save_listings]: any rearrangement of it
    leaves the same table. *)
Theorem save_listings_permutation (db : gmap string row) batch batch' now :
  NoDup (Listing.id <$> batch) → batch ≡ₚ batch' →
  save_listings db batch now = save_listings db batch' now.
Proof.
  intros Hnd Hp. apply map_eq. intros k. rewrite !save_listings_lookup.
  pose proof (occurrences_perm k _ _ Hp) as Ho.
  destruct (occurrences_at_most_one k batch Hnd) as [E|[l E]];
    rewrite E in Ho |- *.
  - by apply Permutation_nil_l in Ho as <-.
  - by apply Permutation_singleton_l in Ho as <-.
Qed.

Lemma save_listings_permutation_witness :
  save_listings sample_store sample_batch 10
  = save_listings sample_store (reverse sample_batch) 10.
Proof.
  apply save_listings_permutation.
  - vm_compute. repeat constructor; intros H;
      repeat (inversion H as [|? ? ? H']; clear H; rename H' into H).
  - apply Permutation_sym, reverse_Permutation.
Defined.

(** ** The run *)

Lemma scrape_pages_concat pages acc :
  scrape_pages pages acc = acc ++ concat (scrape_listings <$> pages).
Proof.
  revert acc. induction pages as [|page rest IH]; intros acc; simpl.
  - by rewrite app_nil_r.
  - by rewrite IH, app_assoc.
Qed.

Lemma main_unfold pages db now :
  main pages db now
  = {| run_db := save_listings db (filtered pages) now;
       run_new :=
         List.filter (λ l, bool_decide (Listing.id l ∉ dom db)) (filtered pages);
       run_scraped := length (scrape_pages pages []);
       run_alert :=
         match List.filter (λ l, bool_decide (Listing.id l ∉ dom db))
                 (filtered pages) with
         | [] => false
         | _ => true
         end |}.
Proof.
  unfold main, get_new_listings. rewrite get_new_loop_spec. done.
Qed.







Lemma concat_omap_length (pages : list (list element)) :
  (length (concat (scrape_listings <$> pages)) ≤ length (concat pages))%nat.
Proof.
  induction pages as [|page rest IH]; [done|].
  rewrite fmap_cons. cbn [concat]. rewrite !length_app, scrape_listings_omap.
  pose proof (omap_length_le scraped page). lia.
Qed.

(** X22.  The counts a run of [main] prints never grow along the
    pipeline: the listings scraped are the listings of the pages taken
    together; the new ones are at most the filtered ones, these at most
    the unique ones, these at most the scraped ones, and these at most the
    cards of all pages. *)
Theorem main_counts pages db now :
  run_scraped (main pages db now)
  = length (concat (scrape_listings <$> pages))
  ∧ (length (run_new (main pages db now)) ≤ length (filtered pages))%nat
  ∧ (length (filtered pages)
     ≤ length (unique_listings (scrape_pages pages [])))%nat
  ∧ (length (unique_listings (scrape_pages pages []))
     ≤ run_scraped (main pages db now))%nat
  ∧ (run_scraped (main pages db now) ≤ length (concat pages))%nat.
Proof.
  rewrite main_unfold. cbn [run_db run_new run_alert run_scraped]. split; [by rewrite scrape_pages_concat|].
  split; [apply sublist_length, list_filter_sublist|].
  split.
  { unfold filtered. rewrite filter_listings_filter.
    apply sublist_length, list_filter_sublist. }
  split; [apply sublist_length, (unique_loop_sublist _ ∅)|].
  rewrite scrape_pages_concat. apply concat_omap_length.
Qed.

(** ** The price shown in the e-mail *)

Lemma digit_char_spec d :
  0 ≤ d ≤ 9 →
  Str.is_digit (digit_char d) = true ∧ Str.digit_val (digit_char d) = d.
Proof.
  intros Hd.
  assert (d = 0 ∨ d = 1 ∨ d = 2 ∨ d = 3 ∨ d = 4 ∨ d = 5 ∨ d = 6 ∨ d = 7
          ∨ d = 8 ∨ d = 9) as H by lia.
  repeat destruct H as [->|H]; try subst d; by vm_compute.
Qed.

Lemma digits_val_app acc (a b : string) :
  Str.digits_val acc (a +:+ b) = Str.digits_val (Str.digits_val acc a) b.
Proof.
  revert acc. induction a as [|c a IH]; intros acc; [done|].
  rewrite str_app_cons. simpl. apply IH.
Qed.

Lemma remove_char_app c (a b : string) :
  Str.remove_char c (a +:+ b) = Str.remove_char c a +:+ Str.remove_char c b.
Proof.
  induction a as [|x a IH]; [done|]. rewrite str_app_cons. simpl.
  destruct (Ascii.eqb x c); [done|]. by rewrite str_app_cons, IH.
Qed.

Lemma three_digits_spec n acc :
  0 ≤ n < 1000 →
  Str.all Str.is_digit (three_digits n) = true
  ∧ Str.digits_val acc (three_digits n) = 1000 * acc + n.
Proof.
  intros Hn. unfold three_digits.
  destruct (digit_char_spec (n / 100)) as [H1 V1];
    [split; [apply Z.div_pos; lia|apply Z.lt_succ_r, Z.div_lt_upper_bound; lia]|].
  destruct (digit_char_spec (n / 10 mod 10)) as [H2 V2];
    [pose proof (Z.mod_pos_bound (n / 10) 10); lia|].
  destruct (digit_char_spec (n mod 10)) as [H3 V3];
    [pose proof (Z.mod_pos_bound n 10); lia|].
  cbn [Str.all Str.digits_val]. rewrite H1, H2, H3, V1, V2, V3.
  split; [done|].
  pose proof (Z.div_mod n 10). pose proof (Z.div_mod (n / 10) 10).
  replace (n / 10 / 10) with (n / 100) in *
    by (rewrite Z.div_div by lia; done).
  lia.
Qed.

Lemma upto_three_digits_spec n :
  0 ≤ n < 1000 →
  upto_three_digits n ≠ ""
  ∧ Str.all Str.is_digit (upto_three_digits n) = true
  ∧ Str.digits_val 0 (upto_three_digits n) = n.
Proof.
  intros Hn. unfold upto_three_digits.
  destruct (Z.ltb_spec n 10); [|destruct (Z.ltb_spec n 100)].
  - destruct (digit_char_spec n) as [H1 V1]; [lia|].
    cbn [Str.all Str.digits_val]. rewrite H1, V1. split; [done|]. split; [done|lia].
  - destruct (digit_char_spec (n / 10)) as [H1 V1];
      [split; [apply Z.div_pos; lia|apply Z.lt_succ_r, Z.div_lt_upper_bound; lia]|].
    destruct (digit_char_spec (n mod 10)) as [H2 V2];
      [pose proof (Z.mod_pos_bound n 10); lia|].
    cbn [Str.all Str.digits_val]. rewrite H1, H2, V1, V2.
    split; [done|]. split; [done|]. pose proof (Z.div_mod n 10). lia.
  - destruct (three_digits_spec n 0) as [Hd Hv]; [lia|].
    split; [done|]. split; [done|]. rewrite Hv. lia.
Qed.

Lemma three_digits_no_comma n :
  0 ≤ n < 1000 → Str.remove_char "," (three_digits n) = three_digits n.
Proof.
  intros Hn. apply remove_char_id.
  destruct (three_digits_spec n 0 Hn) as [H _].
  eapply str_all_impl, H. intros c Hc.
  apply negb_true_iff. destruct (Ascii.eqb_spec c ",") as [->|]; done.
Qed.

Lemma upto_three_digits_no_comma n :
  0 ≤ n < 1000 →
  Str.remove_char "," (upto_three_digits n) = upto_three_digits n.
Proof.
  intros Hn. apply remove_char_id.
  destruct (upto_three_digits_spec n Hn) as (_ & H & _).
  eapply str_all_impl, H. intros c Hc.
  apply negb_true_iff. destruct (Ascii.eqb_spec c ",") as [->|]; done.
Qed.

(** With the commas taken out, the grouped digits are the decimal numeral
    of the number. *)
Lemma thousands_spec fuel n :
  0 ≤ n < 1000 ^ (Z.of_nat fuel + 1) →
  Str.remove_char "," (thousands fuel n) ≠ ""
  ∧ Str.all Str.is_digit (Str.remove_char "," (thousands fuel n)) = true
  ∧ Str.digits_val 0 (Str.remove_char "," (thousands fuel n)) = n.
Proof.
  revert n. induction fuel as [|fuel IH]; intros n Hn.
  - simpl in Hn. cbn [thousands].
    rewrite upto_three_digits_no_comma by lia.
    apply upto_three_digits_spec. lia.
  - cbn [thousands]. destruct (Z.ltb_spec n 1000) as [Hlt|Hge].
    + rewrite upto_three_digits_no_comma by lia.
      apply upto_three_digits_spec. lia.
    + assert (0 ≤ n / 1000 < 1000 ^ (Z.of_nat fuel + 1)) as Hq.
      { split; [apply Z.div_pos; lia|].
        apply Z.div_lt_upper_bound; [lia|].
        replace (Z.of_nat (S fuel) + 1) with (Z.succ (Z.of_nat fuel + 1)) in Hn
          by lia.
        rewrite Z.pow_succ_r in Hn by lia. lia. }
      destruct (IH _ Hq) as (Hne & Hd & Hv).
      assert (0 ≤ n mod 1000 < 1000) as Hr by (apply Z.mod_pos_bound; lia).
      rewrite !remove_char_app, three_digits_no_comma by done.
      change (Str.remove_char "," ",") with EmptyString.
      rewrite str_app_nil_l.
      destruct (three_digits_spec (n mod 1000)
                  (Str.digits_val 0 (Str.remove_char "," (thousands fuel (n / 1000))))
                  Hr) as [Hd3 Hv3].
      split; [|split].
      * destruct (Str.remove_char "," (thousands fuel (n / 1000))); done.
      * by rewrite str_all_app, Hd, Hd3.
      * rewrite digits_val_app, Hv3, Hv. pose proof (Z.div_mod n 1000). lia.
Qed.

Lemma fuel_enough n : 0 < n → n < 1000 ^ (Z.of_nat (Z.to_nat (Z.log2 n)) + 1).
Proof.
  intros Hn. pose proof (Z.log2_nonneg n) as H0.
  rewrite Z2Nat.id by done.
  destruct (Z.log2_spec n Hn) as [_ H].
  eapply Z.lt_le_trans; [exact H|].
  replace (Z.succ (Z.log2 n)) with (Z.log2 n + 1) by lia.
  apply Z.pow_le_mono_l. lia.
Qed.

Lemma format_thousands_spec n :
  0 < n →
  Str.remove_char "," (format_thousands n) ≠ ""
  ∧ Str.all Str.is_digit (Str.remove_char "," (format_thousands n)) = true
  ∧ Str.digits_val 0 (Str.remove_char "," (format_thousands n)) = n.
Proof.
  intros Hn. unfold format_thousands.
  destruct (Z.ltb_spec n 0); [lia|].
  apply thousands_spec. split; [lia|by apply fuel_enough].
Qed.

(** X23.  The price [format_listing_html] shows reads back as the price:
    for a listing whose price is not negative, [parse_price] applied to
    [price_display] gives the price, with a price of zero shown, and read
    back, as no price. *)
Theorem price_display_parses l :
  (∀ p, Listing.price l = Some p → 0 ≤ p) →
  parse_price (Some (price_display l)) = Ok (known_price (Listing.price l)).
Proof.
  intros Hp. unfold price_display.
  destruct (Listing.price l) as [p|]; [|by vm_compute].
  specialize (Hp p eq_refl).
  destruct (Z.eqb_spec p 0) as [->|Hne]; [by vm_compute|].
  assert (known_price (Some p) = Some p) as -> by by destruct p.
  destruct (format_thousands_spec p) as (Hn & Hd & Hv); [lia|].
  assert (parse_price (Some ("$" +:+ format_thousands p))
          = Ok (Some (Str.digits_val 0
                        (Str.remove_char "," (format_thousands p))))) as ->;
    [|by rewrite Hv].
  apply (parse_price_digit_run _ "$" _ ""); try done.
  by rewrite str_app_nil_r.
Qed.

Lemma price_display_parses_witness :
  parse_price (Some (price_display (bare_listing "1" (Some 1234567) None None None)))
  = Ok (Some 1234567).
Proof.
  apply (price_display_parses (bare_listing "1" (Some 1234567) None None None)).
  intros p [= <-]. lia.
Defined.

(** ** The order of the e-mail *)

Lemma sort_key_effective l : sort_key l = default 999999 (effective_price l).
Proof.
  unfold sort_key, effective_price, py_or, falsy, known_price.
  destruct (Listing.net_price l) as [[| |]|], (Listing.price l) as [[| |]|];
    done.
Qed.

Lemma insert_sorted_perm x l : insert_sorted x l ≡ₚ x :: l.
Proof.
  induction l as [|y l IH]; simpl; [done|].
  destruct (sort_key x <=? sort_key y); [done|].
  rewrite IH. apply Permutation_swap.
Qed.

Lemma sort_by_price_perm l : sort_by_price l ≡ₚ l.
Proof.
  induction l as [|x l IH]; [done|]. unfold sort_by_price in *. simpl.
  by rewrite insert_sorted_perm, IH.
Qed.

Lemma insert_sorted_sorted x l :
  StronglySorted key_le l → StronglySorted key_le (insert_sorted x l).
Proof.
  induction 1 as [|y l Hs IH Hy]; simpl; [by repeat constructor|].
  destruct (Z.leb_spec (sort_key x) (sort_key y)) as [Hle|Hgt].
  - constructor; [by constructor|]. constructor; [done|].
    eapply Forall_impl; [exact Hy|]. unfold key_le. simpl. intros; lia.
  - constructor; [done|]. rewrite insert_sorted_perm.
    constructor; [unfold key_le; lia|done].
Qed.

Lemma sort_by_price_sorted l : StronglySorted key_le (sort_by_price l).
Proof.
  induction l as [|x l IH]; [constructor|]. by apply insert_sorted_sorted.
Qed.

Lemma insert_sorted_with_key k x l :
  with_key k (insert_sorted x l) = with_key k (x :: l).
Proof.
  unfold with_key. induction l as [|y l IH]; [done|]. simpl in *.
  destruct (Z.leb_spec (sort_key x) (sort_key y)) as [Hle|Hgt]; [done|].
  simpl. rewrite IH.
  destruct (Z.eqb_spec (sort_key x) k), (Z.eqb_spec (sort_key y) k);
    try done. lia.
Qed.

Lemma sort_by_price_with_key k l :
  with_key k (sort_by_price l) = with_key k l.
Proof.
  induction l as [|x l IH]; [done|].
  change (sort_by_price (x :: l)) with (insert_sorted x (sort_by_price l)).
  rewrite insert_sorted_with_key. unfold with_key in *. simpl.
  by rewrite IH.
Qed.

(** ** What the message holds *)

Lemma cards_app a b : cards (a ++ b) = cards a ++ cards b.
Proof. apply omap_app. Qed.

Lemma cards_map ls : cards (map Card ls) = ls.
Proof.
  induction ls as [|l ls IH]; [done|].
  change (cards (map Card (l :: ls))) with (l :: cards (map Card ls)).
  by rewrite IH.
Qed.

Lemma left_out_app a b : left_out (a ++ b) = (left_out a + left_out b)%nat.
Proof.
  unfold left_out. induction a as [|x a IH]; [done|]. simpl.
  rewrite IH. destruct x; lia.
Qed.

Lemma left_out_map ls : left_out (map Card ls) = 0%nat.
Proof. induction ls as [|l ls IH]; [done|]. done. Qed.

Lemma filter_split_length {A : Type} (f : A → bool) (l : list A) :
  (length (List.filter f l) + length (List.filter (λ x, negb (f x)) l)
   = length l)%nat.
Proof.
  induction l as [|x l IH]; [done|]. simpl.
  destruct (f x); simpl; lia.
Qed.

Lemma filter_negb_filter {A : Type} (f : A → bool) (l : list A) :
  List.filter (λ x, negb (f x)) (List.filter f l) = [].
Proof.
  induction l as [|x l IH]; [done|]. simpl.
  destruct (f x) eqn:E; [|done]. simpl. by rewrite E.
Qed.

Lemma list_filter_perm {A : Type} (f : A → bool) (a b : list A) :
  a ≡ₚ b → List.filter f a ≡ₚ List.filter f b.
Proof.
  induction 1 as [|x l l' _ IH|x y l|l l' l'' _ IH1 _ IH2]; simpl.
  - done.
  - destruct (f x); [by constructor|done].
  - destruct (f x), (f y); try done. constructor.
  - by etrans.
Qed.

(** The message composed from a list that is not empty. *)
Lemma send_email_alert_Some sender password recipient new all_count m :
  send_email_alert sender password recipient new all_count = Some m →
  sender ≠ "" ∧ password ≠ "" ∧ recipient ≠ "" ∧ new ≠ []
  ∧ mail_count m = length new ∧ mail_scanned m = all_count
  ∧ cards (mail_blocks m)
    = List.filter Listing.has_laundry (sort_by_price new)
      ++ take 10 (List.filter (λ l, negb (Listing.has_laundry l))
                    (sort_by_price new))
  ∧ left_out (mail_blocks m)
    = (length (List.filter (λ l, negb (Listing.has_laundry l))
                 (sort_by_price new)) - 10)%nat
  ∧ mail_laundry_count m
    = match List.filter Listing.has_laundry (sort_by_price new) with
      | [] => None
      | ws => Some (length ws)
      end.
Proof.
  unfold send_email_alert.
  destruct sender as [|c1 s1]; [done|].
  destruct password as [|c2 s2]; [done|].
  destruct recipient as [|c3 s3]; [done|].
  cbn [Str.is_empty orb].
  destruct new as [|x new]; [done|].
  set (sorted := sort_by_price (x :: new)).
  set (W := List.filter Listing.has_laundry sorted).
  set (O := List.filter (λ l, negb (Listing.has_laundry l)) sorted).
  intros [= <-]. cbn [mail_count mail_scanned mail_blocks mail_laundry_count].
  do 4 (split; [done|]).
  split; [apply Permutation_length, sort_by_price_perm|].
  split; [done|].
  rewrite cards_app, left_out_app.
  assert (cards match W with [] => [] | _ => LaundryHeading :: map Card W end
          = W
          ∧ left_out match W with [] => [] | _ => LaundryHeading :: map Card W end
            = 0%nat) as [-> ->].
  { destruct W as [|w W']; [done|]. split.
    - change (cards (LaundryHeading :: map Card (w :: W')))
        with (cards (map Card (w :: W'))). apply cards_map.
    - change (left_out (LaundryHeading :: map Card (w :: W')))
        with (left_out (map Card (w :: W'))). apply left_out_map. }
  assert (cards match O with
                | [] => []
                | _ => OtherHeading :: map Card (take 10 O)
                       ++ (if (10 <? length O)%nat
                           then [AndMore (length O - 10)] else [])
                end = take 10 O
          ∧ left_out match O with
                     | [] => []
                     | _ => OtherHeading :: map Card (take 10 O)
                            ++ (if (10 <? length O)%nat
                                then [AndMore (length O - 10)] else [])
                     end = (length O - 10)%nat) as [-> ->].
  { destruct O as [|o O'] eqn:EO; [done|]. rewrite <- EO. split.
    - change (cards (OtherHeading :: ?l)) with (cards l).
      rewrite cards_app, cards_map.
      destruct (10 <? length O)%nat; by rewrite app_nil_r.
    - change (left_out (OtherHeading :: ?l)) with (left_out l).
      rewrite left_out_app, left_out_map.
      destruct (Nat.ltb_spec 10 (length O)); simpl; lia. }
  split; [done|]. split; [done|].
  by destruct W.
Qed.

(** X24.  A message that [send_email_alert] composes accounts for every
    new listing: the count it announces is the number of new listings;
    the listings shown and the number it says it leaves out add up to that
    count; every listing shown is one of the new listings; every new
    listing with laundry is shown; at most ten listings without laundry
    are shown; the number left out is the number of listings without
    laundry beyond ten; and the subject gives the number of listings with
    laundry exactly when there is one. *)
Theorem mail_accounts_for_all sender password recipient new all_count m :
  send_email_alert sender password recipient new all_count = Some m →
  mail_count m = length new
  ∧ mail_scanned m = all_count
  ∧ (length (cards (mail_blocks m)) + left_out (mail_blocks m)
     = length new)%nat
  ∧ (∀ l, l ∈ cards (mail_blocks m) → l ∈ new)
  ∧ (∀ l, l ∈ new → Listing.has_laundry l = true → l ∈ cards (mail_blocks m))
  ∧ (length (List.filter (λ l, negb (Listing.has_laundry l))
               (cards (mail_blocks m))) ≤ 10)%nat
  ∧ left_out (mail_blocks m)
    = (length (List.filter (λ l, negb (Listing.has_laundry l)) new) - 10)%nat
  ∧ mail_laundry_count m
    = match length (List.filter Listing.has_laundry new) with
      | O => None
      | n => Some n
      end.
Proof.
  intros (_ & _ & _ & _ & Hc & Hs & Hcards & Hleft & Hlc)%send_email_alert_Some.
  set (sorted := sort_by_price new) in *.
  set (W := List.filter Listing.has_laundry sorted) in *.
  set (O := List.filter (λ l, negb (Listing.has_laundry l)) sorted) in *.
  assert (length W + length O = length new)%nat as Hlen.
  { unfold W, O. rewrite filter_split_length.
    apply Permutation_length, sort_by_price_perm. }
  assert (∀ l, l ∈ sorted ↔ l ∈ new) as Hin
    by (intros l; unfold sorted; by rewrite (sort_by_price_perm new)).
  split; [done|]. split; [done|]. rewrite Hcards, Hleft.
  split; [|split; [|split; [|split; [|split]]]].
  - rewrite length_app, length_take. lia.
  - intros l [Hl|Hl]%elem_of_app.
    + apply Hin. unfold W in Hl.
      rewrite list_elem_of_In, filter_In, <- list_elem_of_In in Hl. tauto.
    + apply Hin. apply (λ H, elem_of_sublist _ _ _ H (sublist_take O 10)) in Hl.
      unfold O in Hl.
      rewrite list_elem_of_In, filter_In, <- list_elem_of_In in Hl. tauto.
  - intros l Hl Hw. apply elem_of_app. left. unfold W.
    rewrite list_elem_of_In, filter_In, <- list_elem_of_In.
    split; [by apply Hin|done].
  - rewrite List.filter_app, length_app.
    assert (List.filter (λ l, negb (Listing.has_laundry l)) W = []) as ->.
    { apply filter_negb_filter. }
    simpl. etrans; [apply sublist_length, list_filter_sublist|].
    rewrite length_take. lia.
  - f_equal. apply Permutation_length, list_filter_perm, sort_by_price_perm.
  - rewrite Hlc.
    rewrite <- (Permutation_length
                  (list_filter_perm Listing.has_laundry _ _
                     (sort_by_price_perm new))).
    fold sorted. fold W. by destruct W.
Qed.

Lemma mail_accounts_for_all_witness :
  ∃ m, send_email_alert "from@example.com" "secret" "to@example.com"
         sample_new 40 = Some m
       ∧ mail_count m = 3%nat
       ∧ mail_scanned m = 40%nat
       ∧ (length (cards (mail_blocks m)) + left_out (mail_blocks m) = 3)%nat.
Proof.
  eexists. split; [vm_compute; reflexivity|].
  destruct (mail_accounts_for_all "from@example.com" "secret" "to@example.com"
              sample_new 40 _ eq_refl) as (H1 & H2 & H3 & _).
  exact (conj H1 (conj H2 H3)).
Defined.

Lemma Forall_sublist_of {A : Type} (P : A → Prop) (l1 l2 : list A) :
  l1 `sublist_of` l2 → Forall P l2 → Forall P l1.
Proof.
  intros Hs. rewrite !Forall_forall. intros H x Hx.
  apply H. by eapply elem_of_sublist.
Qed.

Lemma sorted_sublist {A : Type} (R : A → A → Prop) (l1 l2 : list A) :
  l1 `sublist_of` l2 → StronglySorted R l2 → StronglySorted R l1.
Proof.
  induction 1 as [|x l1 l2 Hs IH|x l1 l2 Hs IH]; intros H.
  - constructor.
  - inversion H as [|? ? Hl Hx]; subst. constructor; [by apply IH|].
    by eapply Forall_sublist_of.
  - inversion H as [|? ? Hl Hx]; subst. by apply IH.
Qed.

Lemma filter_all_true {A : Type} (f : A → bool) (l : list A) :
  Forall (λ x, f x = true) l → List.filter f l = l.
Proof.
  induction 1 as [|x l Hx _ IH]; [done|]. simpl. by rewrite Hx, IH.
Qed.

Lemma filter_all_false {A : Type} (f : A → bool) (l : list A) :
  Forall (λ x, f x = false) l → List.filter f l = [].
Proof.
  induction 1 as [|x l Hx _ IH]; [done|]. simpl. by rewrite Hx, IH.
Qed.

Lemma Forall_filter_true {A : Type} (f : A → bool) (l : list A) :
  Forall (λ x, f x = true) (List.filter f l).
Proof.
  induction l as [|x l IH]; [constructor|]. simpl.
  destruct (f x) eqn:E; [by constructor|done].
Qed.

Lemma list_filter_comm {A : Type} (f g : A → bool) (l : list A) :
  List.filter f (List.filter g l) = List.filter g (List.filter f l).
Proof.
  induction l as [|x l IH]; [done|]. simpl.
  destruct (f x) eqn:Ef, (g x) eqn:Eg; simpl; rewrite ?Ef, ?Eg, IH; done.
Qed.

(** X25.  The order of the message: the listings with laundry come
    before the others; within each of the two groups the listings are in
    ascending order of the sort key; listings with laundry that have the
    same key keep the order they were found in; and the sort key is the
    effective price the filter works with, or 999999 for a listing with no
    price or a price of zero. *)
Theorem mail_in_price_order sender password recipient new all_count m :
  send_email_alert sender password recipient new all_count = Some m →
  cards (mail_blocks m)
  = List.filter Listing.has_laundry (cards (mail_blocks m))
    ++ List.filter (λ l, negb (Listing.has_laundry l)) (cards (mail_blocks m))
  ∧ StronglySorted key_le
      (List.filter Listing.has_laundry (cards (mail_blocks m)))
  ∧ StronglySorted key_le
      (List.filter (λ l, negb (Listing.has_laundry l)) (cards (mail_blocks m)))
  ∧ (∀ k, with_key k (List.filter Listing.has_laundry (cards (mail_blocks m)))
          = with_key k (List.filter Listing.has_laundry new))
  ∧ (∀ l, sort_key l = default 999999 (effective_price l)).
Proof.
  intros (_ & _ & _ & _ & _ & _ & Hcards & _ & _)%send_email_alert_Some.
  set (sorted := sort_by_price new) in *.
  set (W := List.filter Listing.has_laundry sorted) in *.
  set (O := List.filter (λ l, negb (Listing.has_laundry l)) sorted) in *.
  assert (Forall (λ l, Listing.has_laundry l = true) W) as HW
    by apply Forall_filter_true.
  assert (Forall (λ l, negb (Listing.has_laundry l) = true) (take 10 O)) as HO.
  { apply (Forall_sublist_of _ _ O); [apply sublist_take|].
    apply (Forall_filter_true (λ l, negb (Listing.has_laundry l))). }
  assert (List.filter Listing.has_laundry (cards (mail_blocks m)) = W) as EW.
  { rewrite Hcards, List.filter_app, (filter_all_true _ _ HW).
    rewrite filter_all_false; [by rewrite app_nil_r|].
    eapply Forall_impl; [exact HO|]. simpl. by intros l ?%negb_true_iff. }
  assert (List.filter (λ l, negb (Listing.has_laundry l)) (cards (mail_blocks m))
          = take 10 O) as EO.
  { rewrite Hcards, List.filter_app, (filter_all_true _ _ HO).
    rewrite filter_all_false; [done|].
    eapply Forall_impl; [exact HW|]. simpl. by intros l ->. }
  rewrite EW, EO. split; [done|].
  assert (StronglySorted key_le sorted) as Hs by apply sort_by_price_sorted.
  split; [|split; [|split]].
  - eapply sorted_sublist; [|exact Hs]. apply list_filter_sublist.
  - eapply sorted_sublist; [|exact Hs].
    etrans; [apply sublist_take|apply list_filter_sublist].
  - intros k. unfold W, with_key, sorted.
    rewrite list_filter_comm. fold (with_key k (sort_by_price new)).
    rewrite sort_by_price_with_key. unfold with_key.
    apply list_filter_comm.
  - apply sort_key_effective.
Qed.

Lemma mail_in_price_order_witness :
  ∃ m, send_email_alert "from@example.com" "secret" "to@example.com"
         sample_new 40 = Some m
       ∧ StronglySorted key_le
           (List.filter (λ l, negb (Listing.has_laundry l))
              (cards (mail_blocks m))).
Proof.
  eexists. split; [vm_compute; reflexivity|].
  exact (proj1 (proj2 (proj2
    (mail_in_price_order "from@example.com" "secret" "to@example.com"
       sample_new 40 _ eq_refl)))).
Defined.



(** ** From the card to the e-mail *)

(** X27.  A card on which the net pattern finds nothing gives a listing
    whose net price is its listed price: the e-mail shows no net price for
    it, and the filter and the sort of the e-mail judge it by the listed
    price. *)
Theorem net_display_scraped e l :
  scrape_element e = Ok (Some l) →
  search net_rx (Str.lower (elem_text e)) = None →
  Listing.net_price l = Listing.price l
  ∧ net_display l = ""
  ∧ effective_price l = known_price (Listing.price l)
  ∧ sort_key l = default 999999 (known_price (Listing.price l)).
Proof.
  intros (url & price & beds & baths & net & sqft & _ & _ & _ & _ & Hn
          & _ & ->)%scrape_element_Some_inv Hnone.
  rewrite (scrape_net_price_fallback e price Hnone) in Hn.
  injection Hn as <-.
  rewrite sort_key_effective. unfold net_display, effective_price.
  cbn [Listing.net_price Listing.price].
  split; [done|]. split.
  - destruct price as [n|]; [|done].
    rewrite bool_decide_eq_true_2 by done. by rewrite andb_false_r.
  - by destruct (known_price price).
Qed.

Lemma net_display_scraped_witness :
  ∃ l, scrape_element (text_card "2 beds, 1 bath, $3,000") = Ok (Some l)
       ∧ Listing.net_price l = Listing.price l
       ∧ net_display l = "".
Proof.
  eexists. split; [vm_compute; reflexivity|].
  pose proof (net_display_scraped (text_card "2 beds, 1 bath, $3,000") _
                eq_refl eq_refl) as (H1 & H2 & _).
  exact (conj H1 H2).
Defined.
